(** * goloadbalancer: the backend pool, the peer selector and the health monitor

    A shallow embedding of [loadbalancer.go].  Go's [uint64] and [int] are
    integers of [Z] with their wrap-around written out, a [*Backend] is an
    address into a heap of backend records (so that two slots of the pool may
    alias), the pool's atomic cursor is threaded through a small state monad
    whose computations may panic, and the network (the dialer used by the
    health monitor) is an abstract world passed from probe to probe. *)

From Stdlib Require Import ZArith List Bool Lia String Permutation.
Import ListNotations.
Open Scope Z_scope.

(** ** Machine integers *)

Module GoInt.

(** [uint64(x)]: reduction modulo [2^64]. *)
Definition to_uint64 (z : Z) : Z := z mod 2 ^ 64.

(** [int(x)] on a 64-bit platform: two's complement on 64 bits. *)
Definition to_int (z : Z) : Z := (z + 2 ^ 63) mod 2 ^ 64 - 2 ^ 63.

Definition max_uint64 : Z := 2 ^ 64 - 1.
Definition max_int : Z := 2 ^ 63 - 1.

Definition is_uint64 (z : Z) : Prop := 0 <= z <= max_uint64.

End GoInt.
Import GoInt.

(** ** Data model *)

(** [Backend]: the URL (its [Host]) and the liveness flag.  The mutex only
    serialises accesses to [Alive] and the proxy is the transport
    collaborator; neither carries state of the selection algorithm. *)
Record Backend : Type := mkBackend {
  URL : string;
  Alive : bool
}.

(** A non-nil [*Backend]. *)
Definition ptr : Type := nat.

(** The backend records, by address. *)
Definition Heap : Type := ptr -> Backend.

Record ServerPool : Type := mkServerPool {
  backends : list ptr;
  current : Z
}.

(** [len(s.backends)], an [int]. *)
Definition len (s : ServerPool) : Z := Z.of_nat (List.length (backends s)).

(** A slice's length is an [int]. *)
Definition len_is_int (s : ServerPool) : Prop := len s <= max_int.

(** A slice of 8-byte pointers lies within the address space. *)
Definition pool_addressable (s : ServerPool) : Prop := 8 * len s <= max_int.

(** ** Computations over the pool that may panic *)

Inductive RuntimeError : Type :=
| DivideByZero
| IndexOutOfRange.

Inductive Result (A : Type) : Type :=
| Ok (a : A)
| Panic (e : RuntimeError).
Arguments Ok {A} a.
Arguments Panic {A} e.

(** The pool survives a panic: what was stored before it stays stored. *)
Definition M (A : Type) : Type := ServerPool -> Result A * ServerPool.

Definition ret {A : Type} (a : A) : M A := fun s => (Ok a, s).

Definition panic {A : Type} (e : RuntimeError) : M A := fun s => (Panic e, s).

Definition bind {A B : Type} (m : M A) (k : A -> M B) : M B :=
  fun s =>
    match m s with
    | (Ok a, s') => k a s'
    | (Panic e, s') => (Panic e, s')
    end.

Notation "x <- m ;; k" := (bind m (fun x => k))
  (at level 61, m at next level, right associativity).
Notation "m ;;; k" := (bind m (fun _ => k))
  (at level 61, right associativity).

Definition get_len : M Z := fun s => (Ok (len s), s).

(** [atomic.AddUint64(&s.current, delta)]: stores and returns the new value. *)
Definition AddUint64 (delta : Z) : M Z :=
  fun s =>
    let c := to_uint64 (current s + delta) in
    (Ok c, mkServerPool (backends s) c).

(** [atomic.StoreUint64(&s.current, v)]. *)
Definition StoreUint64 (v : Z) : M unit :=
  fun s => (Ok tt, mkServerPool (backends s) v).

(** [x % y] on [uint64]. *)
Definition uint64_rem (x y : Z) : M Z :=
  if y =? 0 then panic DivideByZero else ret (x mod y).

(** [x % y] on [int]: the remainder has the sign of [x]. *)
Definition int_rem (x y : Z) : M Z :=
  if y =? 0 then panic DivideByZero else ret (Z.rem x y).

(** [s.backends[index]], bounds-checked. *)
Definition backend_at (index : Z) : M ptr :=
  fun s =>
    if (index <? 0) || (len s <=? index) then (Panic IndexOutOfRange, s)
    else match nth_error (backends s) (Z.to_nat index) with
         | Some b => (Ok b, s)
         | None => (Panic IndexOutOfRange, s)
         end.

(** ** Backend record *)

Definition SetAlive (h : Heap) (b : ptr) (alive : bool) : Heap :=
  fun p => if Nat.eqb p b then mkBackend (URL (h p)) alive else h p.

Definition IsAlive (h : Heap) (b : ptr) : bool := Alive (h b).

(** ** Peer selector *)

Definition NextIndex : M Z :=
  c <- AddUint64 (to_uint64 1) ;;
  n <- get_len ;;
  r <- uint64_rem c (to_uint64 n) ;;
  ret (to_int r).

(** The loop of [NextPeer], [for i := next; i < l; i++].  Neither [l] nor
    [next] changes in the body and [i] moves by one, so the loop makes at
    most [l - next] rounds; [fuel] counts the rounds left.  [i + 1] does not
    wrap, since [i < l] and [l] is an [int]. *)
Fixpoint NextPeer_loop (h : Heap) (next l : Z) (fuel : nat) (i : Z)
  : M (option ptr) :=
  match fuel with
  | O => ret None
  | S fuel' =>
      if i <? l then
        n <- get_len ;;
        index <- int_rem i n ;;
        b <- backend_at index ;;
        if IsAlive h b then
          (if negb (i =? next) then StoreUint64 (to_uint64 index)
           else ret tt) ;;;
          ret (Some b)
        else NextPeer_loop h next l fuel' (i + 1)
      else ret None
  end.

Definition NextPeer (h : Heap) : M (option ptr) :=
  next <- NextIndex ;;
  n <- get_len ;;
  let l := to_int (n + next) in
  NextPeer_loop h next l (Z.to_nat (l - next)) next.

(** ** Dispatch facade *)

(** A value of type [any]: its dynamic type and its value. *)
Inductive GoValue : Type :=
| VNil
| VInt (n : Z)
| VInt64 (n : Z)
| VBool (b : bool)
| VString (str : string).

Definition GoValue_eqb (x y : GoValue) : bool :=
  match x, y with
  | VNil, VNil => true
  | VInt a, VInt b => a =? b
  | VInt64 a, VInt64 b => a =? b
  | VBool a, VBool b => Bool.eqb a b
  | VString a, VString b => String.eqb a b
  | _, _ => false
  end.

(** A request context: the chain built by [context.WithValue], the most
    recent pair first. *)
Definition Context : Type := list (GoValue * GoValue).

(** [ctx.Value(key)]: the value of the nearest pair with that key, or nil. *)
Fixpoint Value (ctx : Context) (key : GoValue) : GoValue :=
  match ctx with
  | [] => VNil
  | (k, v) :: parent => if GoValue_eqb k key then v else Value parent key
  end.

Record Request : Type := mkRequest {
  RequestContext : Context
}.

(** What the handler does with the response writer. *)
Inductive Response : Type :=
| ServeHTTP (peer : ptr)
| HttpError (msg : string) (code : Z).

Definition StatusServiceUnavailable : Z := 503.

Definition LbHandler (h : Heap) (r : Request) : M Response :=
  peer <- NextPeer h ;;
  match peer with
  | Some b => ret (ServeHTTP b)
  | None =>
      ret (HttpError "Service not available"%string StatusServiceUnavailable)
  end.

Definition AttemptsKey : GoValue := VInt 0.

Definition GetAttemptsFromContext (r : Request) : Z :=
  match Value (RequestContext r) AttemptsKey with
  | VInt attempts => attempts
  | _ => 0
  end.

Definition LbHandlerWithHealthCheck (h : Heap) (r : Request) : M Response :=
  let attempts := GetAttemptsFromContext r in
  if attempts >? 3 then
    ret (HttpError "Service not available"%string StatusServiceUnavailable)
  else
    peer <- NextPeer h ;;
    match peer with
    | Some b => ret (ServeHTTP b)
    | None =>
        ret (HttpError "Service not available"%string
               StatusServiceUnavailable)
    end.

(** ** Health monitor *)

(** [time.Second], a [time.Duration] in nanoseconds. *)
Definition Second : Z := 1000000000.

(** The timeout [isAliveCheck] gives to the dialer. *)
Definition isAliveCheck_timeout : Z := 2 * Second.

(** The period of the ticker of [HealthCheck]. *)
Definition HealthCheck_interval : Z := Second * 2.

Section HealthMonitor.

(** The network and the clock, as far as the dialer sees them. *)
Variable World : Type.

(** [net.DialTimeout(network, address, timeout)]; [true] when it returns a
    connection and no error. *)
Variable DialTimeout : string -> string -> Z -> World -> bool * World.

(** A receive from the channel of a ticker of the given period: the world
    once the next tick has come. *)
Variable AwaitTick : Z -> World -> World.

Definition isAliveCheck (u : string) (w : World) : bool * World :=
  let timeout := isAliveCheck_timeout in
  let (connected, w') := DialTimeout "tcp"%string u timeout w in
  if connected then (true, w') else (false, w').

(** [for _, b := range s.backends], one probe after the other. *)
Fixpoint HealthCheck_range (bs : list ptr) (h : Heap) (w : World)
  : Heap * World :=
  match bs with
  | [] => (h, w)
  | b :: bs' =>
      let (status, w') := isAliveCheck (URL (h b)) w in
      HealthCheck_range bs' (SetAlive h b status) w'
  end.

(** The body of the ticker loop, run at each tick. *)
Definition HealthCheck_tick (s : ServerPool) (h : Heap) (w : World)
  : Heap * World :=
  HealthCheck_range (backends s) h w.

(** The first [ticks] rounds of [for v := range t.C], for the ticker
    [time.NewTicker(time.Second * 2)]. *)
Fixpoint HealthCheck (ticks : nat) (s : ServerPool) (h : Heap) (w : World)
  : Heap * World :=
  match ticks with
  | O => (h, w)
  | S ticks' =>
      let (h', w') := HealthCheck_tick s h (AwaitTick HealthCheck_interval w) in
      HealthCheck ticks' s h' w'
  end.

End HealthMonitor.

(** ** The scan order of the selector, stated on its own *)

(** The slot reached [k] steps after [start] on the ring. *)
Definition ring_index (s : ServerPool) (start : Z) (k : nat) : Z :=
  (start + Z.of_nat k) mod len s.

(** The indices [start, start+1, ..., start+N-1] reduced modulo [N]. *)
Definition scan_order (s : ServerPool) (start : Z) : list Z :=
  map (ring_index s start) (seq 0 (List.length (backends s))).

Definition slot (s : ServerPool) (index : Z) : ptr :=
  nth (Z.to_nat index) (backends s) 0%nat.

Definition live_at (h : Heap) (s : ServerPool) (index : Z) : bool :=
  IsAlive h (slot s index).

Definition set_current (s : ServerPool) (c : Z) : ServerPool :=
  mkServerPool (backends s) c.

(** [k] consecutive calls of [NextPeer], with the liveness flags held fixed;
    the results in call order. *)
Fixpoint NextPeer_calls (h : Heap) (k : nat) (s : ServerPool)
  : list (Result (option ptr)) * ServerPool :=
  match k with
  | O => ([], s)
  | S k' =>
      let (r, s1) := NextPeer h s in
      let (rs, s2) := NextPeer_calls h k' s1 in
      (r :: rs, s2)
  end.

(** The offset from [start] of the first live slot met on the ring. *)
Definition first_live (h : Heap) (s : ServerPool) (start : Z) : option nat :=
  find (fun k => live_at h s (ring_index s start k))
       (seq 0 (List.length (backends s))).

Definition all_alive (h : Heap) (s : ServerPool) : Prop :=
  forall b, In b (backends s) -> IsAlive h b = true.

(** One round-robin cycle: the first [N] of [N + 1] consecutive calls return
    the backends of the pool, each slot once, and the last call returns what
    the first call returned. *)
Definition round_robin_cycle (h : Heap) (s : ServerPool) : Prop :=
  exists (visited : list ptr) (again : ptr),
    fst (NextPeer_calls h (S (List.length (backends s))) s) =
      map (fun b => Ok (Some b)) (visited ++ [again]) /\
    List.length visited = List.length (backends s) /\
    Permutation visited (backends s) /\
    (NoDup (backends s) -> NoDup visited) /\
    hd_error visited = Some again.

(** A step on the pool keeps the counter from moving backward, the wrap at
    the maximum apart. *)
Definition never_moves_backward (step : ServerPool -> ServerPool)
  (s : ServerPool) : Prop :=
  current s < max_uint64 -> current s <= current (step s).

(** ** Pools and heaps used as concrete inputs *)

(** [A] is dead, [B] and [C] are alive. *)
Definition heapABC : Heap := fun p =>
  match p with
  | 0%nat => mkBackend "a.example:8081" false
  | 1%nat => mkBackend "b.example:8082" true
  | _ => mkBackend "c.example:8083" true
  end.

Definition heap_all_alive : Heap := fun _ => mkBackend "x.example:80" true.

Definition poolABC (cursor : Z) : ServerPool :=
  mkServerPool [0%nat; 1%nat; 2%nat] cursor.

Definition empty_pool (cursor : Z) : ServerPool := mkServerPool [] cursor.

(** A dialer stub that succeeds and fails in turn; its world counts the
    connection attempts made so far. *)
Definition alternating_dial (network address : string) (timeout : Z) (w : nat)
  : bool * nat :=
  (Nat.even w, S w).

(** A ticker stub whose ticks come at once. *)
Definition instant_tick (period : Z) (w : nat) : nat := w.

Definition poolB : ServerPool := mkServerPool [1%nat] 0.

Definition request_with_attempts (v : GoValue) : Request :=
  mkRequest [(AttemptsKey, v)].

(** What a handler makes of the outcome of [NextPeer]: the request goes to
    the peer, or the client gets a 503. *)
Definition dispatch (r : Result (option ptr) * ServerPool)
  : Result Response * ServerPool :=
  match r with
  | (Ok (Some b), s') => (Ok (ServeHTTP b), s')
  | (Ok None, s') =>
      (Ok (HttpError "Service not available" StatusServiceUnavailable), s')
  | (Panic e, s') => (Panic e, s')
  end.

(** [k] consecutive calls of [NextIndex]; the results in call order. *)
Fixpoint NextIndex_calls (k : nat) (s : ServerPool)
  : list (Result Z) * ServerPool :=
  match k with
  | O => ([], s)
  | S k' =>
      let (r, s1) := NextIndex s in
      let (rs, s2) := NextIndex_calls k' s1 in
      (r :: rs, s2)
  end.


(** * Properties *)

(** ** Machine integers *)

Lemma to_uint64_small (z : Z) : 0 <= z < 2 ^ 64 -> to_uint64 z = z.
Proof. intros Hz. unfold to_uint64. now apply Z.mod_small. Qed.

Lemma to_int_small (z : Z) : - 2 ^ 63 <= z < 2 ^ 63 -> to_int z = z.
Proof.
  intros Hz. unfold to_int.
  rewrite Z.mod_small by lia. lia.
Qed.

Lemma len_set_current (s : ServerPool) (c : Z) : len (set_current s c) = len s.
Proof. reflexivity. Qed.

Lemma len_nonneg (s : ServerPool) : 0 <= len s.
Proof. unfold len. lia. Qed.

Lemma addressable_is_int (s : ServerPool) : pool_addressable s -> len_is_int s.
Proof.
  unfold pool_addressable, len_is_int, max_int.
  pose proof (len_nonneg s). lia.
Qed.

(** ** [NextIndex] on a pool that is not empty *)

Lemma NextIndex_eq (s : ServerPool) :
  1 <= len s -> len_is_int s ->
  NextIndex s =
  (Ok (to_uint64 (current s + 1) mod len s),
   set_current s (to_uint64 (current s + 1))).
Proof.
  intros Hpos Hint. unfold len_is_int, max_int in Hint.
  unfold NextIndex, bind, AddUint64, get_len, uint64_rem, ret, set_current.
  cbn [backends current].
  change (len {| backends := backends s;
                 current := to_uint64 (current s + to_uint64 1) |})
    with (len s).
  rewrite (to_uint64_small 1) by lia.
  rewrite (to_uint64_small (len s)) by lia.
  destruct (len s =? 0) eqn:E; [apply Z.eqb_eq in E; lia|].
  rewrite to_int_small; [reflexivity|].
  pose proof (Z.mod_pos_bound (to_uint64 (current s + 1)) (len s)). lia.
Qed.

Lemma ring_index_range (s : ServerPool) (start : Z) (k : nat) :
  1 <= len s -> 0 <= ring_index s start k < len s.
Proof. intros H. unfold ring_index. apply Z.mod_pos_bound. lia. Qed.

Lemma backend_at_eq (s : ServerPool) (index : Z) :
  0 <= index < len s -> backend_at index s = (Ok (slot s index), s).
Proof.
  intros [H0 H1]. unfold backend_at, slot.
  destruct (index <? 0) eqn:E0; [apply Z.ltb_lt in E0; lia|].
  destruct (len s <=? index) eqn:E1; [apply Z.leb_le in E1; lia|].
  cbn [orb].
  rewrite (nth_error_nth' (backends s) 0%nat); [reflexivity|].
  unfold len in H1. lia.
Qed.

(** ** The loop of [NextPeer] finds the first live slot of the ring *)

(** The loop leaves by its own test [i < l] or by [return], never for want
    of fuel: [l - i] rounds are enough, and more change nothing. *)
Lemma NextPeer_loop_fuel_enough (h : Heap) (next l : Z) (fuel : nat) :
  forall (fuel' : nat) (i : Z) (s : ServerPool),
    (Z.to_nat (l - i) <= fuel)%nat -> (Z.to_nat (l - i) <= fuel')%nat ->
    NextPeer_loop h next l fuel i s = NextPeer_loop h next l fuel' i s.
Proof.
  induction fuel as [|fuel IH]; intros fuel' i s Hf Hf'.
  - destruct fuel' as [|fuel']; [reflexivity|]. cbn [NextPeer_loop].
    destruct (i <? l) eqn:E; [apply Z.ltb_lt in E; lia|reflexivity].
  - cbn [NextPeer_loop]. destruct (i <? l) eqn:E.
    + apply Z.ltb_lt in E.
      destruct fuel' as [|fuel']; [lia|]. cbn [NextPeer_loop].
      rewrite (proj2 (Z.ltb_lt i l) E).
      unfold bind, get_len.
      destruct (int_rem i (len s) s) as [[index|e] s1]; [|reflexivity].
      destruct (backend_at index s1) as [[b|e] s2]; [|reflexivity].
      destruct (IsAlive h b); [reflexivity|].
      apply IH; lia.
    + destruct fuel' as [|fuel']; [reflexivity|]. cbn [NextPeer_loop].
      now rewrite E.
Qed.

Lemma NextPeer_loop_eq (h : Heap) (s : ServerPool) (next : Z) :
  1 <= len s -> pool_addressable s -> 0 <= next < len s ->
  forall (fuel j : nat),
    (j + fuel = List.length (backends s))%nat ->
    NextPeer_loop h next (len s + next) fuel (next + Z.of_nat j) s =
    match find (fun k => live_at h s (ring_index s next k)) (seq j fuel) with
    | Some k => (Ok (Some (slot s (ring_index s next k))),
                 if (k =? 0)%nat then s
                 else set_current s (ring_index s next k))
    | None => (Ok None, s)
    end.
Proof.
  intros Hpos Haddr Hnext.
  unfold pool_addressable, max_int in Haddr.
  induction fuel as [|fuel IH]; intros j Hj.
  - reflexivity.
  - cbn [NextPeer_loop seq find].
    assert (Hjn : Z.of_nat j < len s) by (unfold len; lia).
    destruct (next + Z.of_nat j <? len s + next) eqn:Elt;
      [|apply Z.ltb_ge in Elt; lia].
    unfold bind at 1, get_len. unfold bind at 1, int_rem.
    destruct (len s =? 0) eqn:E0; [apply Z.eqb_eq in E0; lia|].
    unfold ret at 1.
    rewrite Z.rem_mod_nonneg by lia.
    fold (ring_index s next j).
    pose proof (ring_index_range s next j Hpos) as Hr.
    unfold bind at 1. rewrite backend_at_eq by exact Hr.
    fold (live_at h s (ring_index s next j)).
    destruct (live_at h s (ring_index s next j)) eqn:Elive.
    + rewrite to_uint64_small by lia.
      destruct j as [|j].
      * replace (next + Z.of_nat 0) with next by lia.
        rewrite Z.eqb_refl. reflexivity.
      * destruct (next + Z.of_nat (S j) =? next) eqn:Eq;
          [apply Z.eqb_eq in Eq; lia|].
        reflexivity.
    + replace (next + Z.of_nat j + 1) with (next + Z.of_nat (S j)) by lia.
      apply IH. lia.
Qed.

Lemma NextPeer_eq (h : Heap) (s : ServerPool) :
  1 <= len s -> pool_addressable s ->
  NextPeer h s =
  let c := to_uint64 (current s + 1) in
  match first_live h s (c mod len s) with
  | Some k => (Ok (Some (slot s (ring_index s (c mod len s) k))),
               if (k =? 0)%nat then set_current s c
               else set_current s (ring_index s (c mod len s) k))
  | None => (Ok None, set_current s c)
  end.
Proof.
  intros Hpos Haddr. cbv zeta.
  pose proof (addressable_is_int s Haddr) as Hint.
  unfold NextPeer. unfold bind at 1.
  rewrite NextIndex_eq by assumption.
  set (c := to_uint64 (current s + 1)).
  set (next := c mod len s).
  assert (Hnext : 0 <= next < len s) by (apply Z.mod_pos_bound; lia).
  unfold bind, get_len. rewrite len_set_current.
  unfold pool_addressable, max_int in Haddr.
  rewrite to_int_small by lia.
  replace (len s + next - next) with (len s) by lia.
  unfold len at 2. rewrite Nat2Z.id.
  pose proof (NextPeer_loop_eq h (set_current s c) next Hpos Haddr Hnext
                (List.length (backends s)) 0%nat eq_refl) as HL.
  change (Z.of_nat 0) with 0 in HL. rewrite Z.add_0_r in HL.
  exact HL.
Qed.

(** ** The scan order covers the ring *)

Lemma find_map {A B : Type} (f : B -> bool) (g : A -> B) (l : list A) :
  find f (map g l) = option_map g (find (fun x => f (g x)) l).
Proof.
  induction l as [|x l IH]; cbn; [reflexivity|].
  destruct (f (g x)); [reflexivity|exact IH].
Qed.

Lemma find_all_false {A : Type} (f : A -> bool) (l : list A) :
  (forall x, In x l -> f x = false) -> find f l = None.
Proof.
  intros H. destruct (find f l) as [x|] eqn:E; [|reflexivity].
  apply find_some in E. destruct E as [Hin Hx].
  rewrite (H x Hin) in Hx. discriminate.
Qed.

Lemma scan_order_range (s : ServerPool) (start index : Z) :
  1 <= len s -> In index (scan_order s start) -> 0 <= index < len s.
Proof.
  intros Hpos Hin. unfold scan_order in Hin.
  apply in_map_iff in Hin. destruct Hin as [k [<- _]].
  now apply ring_index_range.
Qed.

Lemma scan_order_complete (s : ServerPool) (start index : Z) :
  1 <= len s -> 0 <= index < len s -> In index (scan_order s start).
Proof.
  intros Hpos Hidx. unfold scan_order. apply in_map_iff.
  exists (Z.to_nat ((index - start) mod len s)).
  pose proof (Z.mod_pos_bound (index - start) (len s)) as Hb.
  split.
  - unfold ring_index. rewrite Z2Nat.id by lia.
    rewrite Zplus_mod_idemp_r.
    replace (start + (index - start)) with index by lia.
    apply Z.mod_small. exact Hidx.
  - apply in_seq. unfold len in *. lia.
Qed.

Lemma slot_In (s : ServerPool) (index : Z) :
  0 <= index < len s -> In (slot s index) (backends s).
Proof.
  intros H. unfold slot. apply nth_In. unfold len in H. lia.
Qed.

Lemma In_slot (s : ServerPool) (b : ptr) :
  In b (backends s) -> exists index, 0 <= index < len s /\ slot s index = b.
Proof.
  intros Hin. destruct (In_nth _ _ 0%nat Hin) as [i [Hi Hb]].
  exists (Z.of_nat i). unfold slot, len. rewrite Nat2Z.id.
  split; [unfold ptr in *; lia|exact Hb].
Qed.

(** The result of [NextPeer], read on the scan order. *)
Lemma NextPeer_result (h : Heap) (s : ServerPool) :
  1 <= len s -> pool_addressable s ->
  fst (NextPeer h s) =
  Ok (option_map (slot s)
        (find (live_at h s)
              (scan_order s (to_uint64 (current s + 1) mod len s)))).
Proof.
  intros Hpos Haddr. rewrite NextPeer_eq by assumption. cbv zeta.
  unfold scan_order. rewrite find_map. unfold first_live.
  destruct (find _ _) as [k|]; reflexivity.
Qed.

(** C1: on a pool of [N >= 1] backends [NextPeer] takes [start] from
    [NextIndex], scans the indices [start, start+1, ..., start+N-1] reduced
    modulo [N] in that order and returns the first backend that is alive;
    whatever it returns is an alive backend of the pool, it returns one
    whenever some backend is alive, and it returns nil exactly when every
    backend is dead. *)
Theorem NextPeer_first_alive_on_ring (h : Heap) (s : ServerPool) :
  1 <= len s -> pool_addressable s ->
  exists start : Z,
    fst (NextIndex s) = Ok start /\
    0 <= start < len s /\
    fst (NextPeer h s) =
      Ok (option_map (slot s) (find (live_at h s) (scan_order s start))) /\
    (forall b, fst (NextPeer h s) = Ok (Some b) ->
               In b (backends s) /\ IsAlive h b = true) /\
    ((exists b, In b (backends s) /\ IsAlive h b = true) ->
     exists b, fst (NextPeer h s) = Ok (Some b)) /\
    (fst (NextPeer h s) = Ok None <->
     forall b, In b (backends s) -> IsAlive h b = false).
Proof.
  intros Hpos Haddr.
  pose proof (addressable_is_int s Haddr) as Hint.
  set (start := to_uint64 (current s + 1) mod len s).
  assert (Hstart : 0 <= start < len s) by (apply Z.mod_pos_bound; lia).
  pose proof (NextPeer_result h s Hpos Haddr) as HR. fold start in HR.
  assert (Hdead : find (live_at h s) (scan_order s start) = None <->
                  forall b, In b (backends s) -> IsAlive h b = false).
  { split.
    - intros Hnone b Hb. destruct (In_slot s b Hb) as [i [Hi <-]].
      apply (find_none _ _ Hnone i).
      now apply scan_order_complete.
    - intros Hall. apply find_all_false. intros i Hi.
      apply Hall, slot_In. now apply (scan_order_range s start). }
  exists start. repeat split.
  - rewrite NextIndex_eq by assumption. reflexivity.
  - apply Hstart.
  - apply Hstart.
  - exact HR.
  - rewrite HR in H.
    destruct (find (live_at h s) (scan_order s start)) as [i|] eqn:E;
      [|discriminate].
    apply find_some in E. destruct E as [Hin _].
    injection H as <-. apply slot_In. now apply (scan_order_range s start).
  - rewrite HR in H.
    destruct (find (live_at h s) (scan_order s start)) as [i|] eqn:E;
      [|discriminate].
    apply find_some in E. destruct E as [_ Hlive].
    injection H as <-. exact Hlive.
  - intros [b [Hb Hlive]].
    destruct (find (live_at h s) (scan_order s start)) as [i|] eqn:E.
    + exists (slot s i). exact HR.
    + destruct Hdead as [Hd _]. rewrite (Hd eq_refl b Hb) in Hlive.
      discriminate.
  - intros Hnil. apply Hdead. rewrite HR in Hnil.
    destruct (find (live_at h s) (scan_order s start));
      [discriminate|reflexivity].
  - intros Hall. rewrite HR. apply Hdead in Hall. rewrite Hall. reflexivity.
Qed.

(** ** Round robin with every backend alive *)

Lemma NextPeer_all_alive (h : Heap) (s : ServerPool) :
  1 <= len s -> pool_addressable s -> all_alive h s ->
  NextPeer h s =
  (Ok (Some (slot s (to_uint64 (current s + 1) mod len s))),
   set_current s (to_uint64 (current s + 1))).
Proof.
  intros Hpos Haddr Hall. rewrite NextPeer_eq by assumption. cbv zeta.
  set (start := to_uint64 (current s + 1) mod len s).
  assert (Hstart : 0 <= start < len s) by (apply Z.mod_pos_bound; lia).
  assert (H0 : ring_index s start 0 = start).
  { unfold ring_index. change (Z.of_nat 0) with 0.
    rewrite Z.add_0_r. now apply Z.mod_small. }
  unfold first_live.
  destruct (backends s) as [|b bs] eqn:Ebs.
  - unfold len in Hpos. rewrite Ebs in Hpos. cbn in Hpos. lia.
  - cbn [List.length seq find]. rewrite H0.
    unfold live_at. rewrite (Hall (slot s start)) by now apply slot_In.
    cbv beta iota. rewrite H0. reflexivity.
Qed.

Lemma to_uint64_succ (c k : Z) :
  to_uint64 (to_uint64 (c + 1) + k) = to_uint64 (c + (1 + k)).
Proof.
  unfold to_uint64. rewrite Zplus_mod_idemp_l. f_equal. lia.
Qed.

Lemma NextPeer_calls_all_alive (h : Heap) (k : nat) :
  forall s : ServerPool,
    1 <= len s -> pool_addressable s -> all_alive h s ->
    fst (NextPeer_calls h k s) =
    map (fun i => Ok (Some (slot s (to_uint64 (current s + 1 + Z.of_nat i)
                                      mod len s))))
        (seq 0 k).
Proof.
  induction k as [|k IH]; intros s Hpos Haddr Hall; [reflexivity|].
  cbn [NextPeer_calls]. rewrite NextPeer_all_alive by assumption.
  specialize (IH (set_current s (to_uint64 (current s + 1))) Hpos Haddr Hall).
  destruct (NextPeer_calls h k (set_current s (to_uint64 (current s + 1))))
    as [rs s2].
  cbn [fst] in *. subst rs.
  cbn [seq map]. change (Z.of_nat 0) with 0. rewrite Z.add_0_r.
  f_equal. rewrite <- seq_shift, map_map.
  apply map_ext. intros i.
  change (slot (set_current s (to_uint64 (current s + 1)))) with (slot s).
  rewrite len_set_current.
  change (current (set_current s (to_uint64 (current s + 1))))
    with (to_uint64 (current s + 1)).
  replace (to_uint64 (current s + 1) + 1 + Z.of_nat i)
    with (to_uint64 (current s + 1) + (1 + Z.of_nat i)) by lia.
  rewrite to_uint64_succ.
  replace (current s + (1 + (1 + Z.of_nat i)))
    with (current s + 1 + Z.of_nat (S i)) by lia.
  reflexivity.
Qed.

Lemma ring_index_inj (s : ServerPool) (start : Z) (j k : nat) :
  1 <= len s -> Z.of_nat j < len s -> Z.of_nat k < len s ->
  ring_index s start j = ring_index s start k -> j = k.
Proof.
  intros Hpos Hj Hk E. unfold ring_index in E.
  assert (Hd : (Z.of_nat j - Z.of_nat k) mod len s = 0).
  { replace (Z.of_nat j - Z.of_nat k)
      with ((start + Z.of_nat j) - (start + Z.of_nat k)) by lia.
    rewrite Zminus_mod, E, Z.sub_diag. apply Z.mod_0_l. lia. }
  apply Z.mod_divide in Hd; [|lia]. destruct Hd as [q Hq].
  assert (q = 0) by nia. lia.
Qed.

Lemma slots_in_order (bs : list ptr) (c : Z) :
  map (slot (mkServerPool bs c)) (map Z.of_nat (seq 0 (List.length bs))) = bs.
Proof.
  rewrite map_map. unfold slot. cbn [backends].
  apply (nth_ext _ _ 0%nat 0%nat).
  - now rewrite length_map, length_seq.
  - intros n Hn. rewrite length_map, length_seq in Hn.
    rewrite (nth_indep _ 0%nat (nth (Z.to_nat (Z.of_nat 0)) bs 0%nat))
      by (now rewrite length_map, length_seq).
    rewrite (map_nth (fun x => nth (Z.to_nat (Z.of_nat x)) bs 0%nat)).
    rewrite seq_nth by exact Hn. now rewrite Nat2Z.id.
Qed.

Lemma scan_order_Permutation (s : ServerPool) (start : Z) :
  1 <= len s -> Permutation (map (slot s) (scan_order s start)) (backends s).
Proof.
  intros Hpos.
  assert (HP : Permutation (scan_order s start)
                 (map Z.of_nat (seq 0 (List.length (backends s))))).
  { apply NoDup_Permutation_bis.
    - unfold scan_order. apply NoDup_map_NoDup_ForallPairs; [|apply seq_NoDup].
      intros j k Hj Hk E. apply in_seq in Hj, Hk.
      apply (ring_index_inj s start); unfold len; solve [lia | exact E].
    - unfold scan_order. rewrite !length_map. lia.
    - intros i Hi. apply (scan_order_range s start) in Hi; [|exact Hpos].
      apply in_map_iff. exists (Z.to_nat i). split; [lia|].
      apply in_seq. unfold len in Hi. lia. }
  apply (Permutation_map (slot s)) in HP.
  destruct s as [bs c]. rewrite slots_in_order in HP. exact HP.
Qed.

(** Where the counter does not wrap inside the window, or where the pool size
    divides [2^64], the counter reduced modulo [N] walks the ring. *)
Lemma cursor_walks_ring (s : ServerPool) (i : nat) :
  1 <= len s -> is_uint64 (current s) ->
  current s + len s + 1 <= max_uint64 \/ (len s | 2 ^ 64) ->
  Z.of_nat i <= len s ->
  to_uint64 (current s + 1 + Z.of_nat i) mod len s =
  ring_index s (current s + 1) i.
Proof.
  intros Hpos [Hc0 Hc1] Hwrap Hi. unfold max_uint64 in *. unfold ring_index.
  destruct Hwrap as [Hno|Hdiv].
  - rewrite to_uint64_small by lia. reflexivity.
  - unfold to_uint64. now apply Z.mod_mod_divide.
Qed.

(** C3, amended: with every backend alive and the liveness flags held fixed,
    [N] consecutive calls of [NextPeer] return the backends of the pool, each
    slot once, and call [N + 1] returns what the first call returned,
    provided the counter does not wrap around [2^64] during these [N + 1]
    calls or [N] divides [2^64]. *)
Theorem NextPeer_round_robin_cycle (h : Heap) (s : ServerPool) :
  1 <= len s -> pool_addressable s -> all_alive h s ->
  is_uint64 (current s) ->
  current s + len s + 1 <= max_uint64 \/ (len s | 2 ^ 64) ->
  round_robin_cycle h s.
Proof.
  intros Hpos Haddr Hall Hcur Hwrap.
  exists (map (slot s) (scan_order s (current s + 1))).
  exists (slot s (ring_index s (current s + 1) 0)).
  assert (Hperm := scan_order_Permutation s (current s + 1) Hpos).
  repeat split.
  - rewrite NextPeer_calls_all_alive by assumption.
    rewrite seq_S, !map_app. f_equal.
    + unfold scan_order. rewrite !map_map. apply map_ext_in.
      intros i Hi. apply in_seq in Hi.
      rewrite cursor_walks_ring; try assumption; [reflexivity|].
      unfold len. lia.
    + cbn [map Nat.add]. do 3 f_equal.
      rewrite cursor_walks_ring; try assumption; [|unfold len; lia].
      unfold ring_index. fold (len s). change (Z.of_nat 0) with 0.
      rewrite Z.add_0_r.
      replace (current s + 1 + len s) with (current s + 1 + 1 * len s) by lia.
      now rewrite Z_mod_plus_full.
  - unfold scan_order. now rewrite !length_map, length_seq.
  - exact Hperm.
  - intros Hnodup. apply (Permutation_NoDup (Permutation_sym Hperm) Hnodup).
  - unfold scan_order. destruct (backends s) as [|b bs] eqn:Ebs.
    + unfold len in Hpos. rewrite Ebs in Hpos. cbn in Hpos. lia.
    + reflexivity.
Qed.

Lemma NextPeer_first_alive_on_ring_witness :
  1 <= len (poolABC 0) /\ pool_addressable (poolABC 0) /\
  exists start : Z,
    fst (NextIndex (poolABC 0)) = Ok start /\
    0 <= start < len (poolABC 0) /\
    fst (NextPeer heapABC (poolABC 0)) =
      Ok (option_map (slot (poolABC 0))
            (find (live_at heapABC (poolABC 0))
                  (scan_order (poolABC 0) start))) /\
    (forall b, fst (NextPeer heapABC (poolABC 0)) = Ok (Some b) ->
               In b (backends (poolABC 0)) /\ IsAlive heapABC b = true) /\
    ((exists b, In b (backends (poolABC 0)) /\ IsAlive heapABC b = true) ->
     exists b, fst (NextPeer heapABC (poolABC 0)) = Ok (Some b)) /\
    (fst (NextPeer heapABC (poolABC 0)) = Ok None <->
     forall b, In b (backends (poolABC 0)) -> IsAlive heapABC b = false).
Proof.
  split; [|split].
  - unfold len. cbn. lia.
  - unfold pool_addressable, max_int, len. cbn. lia.
  - apply (NextPeer_first_alive_on_ring heapABC (poolABC 0)).
    + unfold len. cbn. lia.
    + unfold pool_addressable, max_int, len. cbn. lia.
Defined.

(** C3 as stated fails where the counter wraps inside the window: from the
    cursor [2^64 - 2] a pool of three live backends is served slot 0 twice in
    three calls. *)
Lemma round_robin_cycle_fails_at_wrap :
  1 <= len (poolABC (2 ^ 64 - 2)) /\
  all_alive heap_all_alive (poolABC (2 ^ 64 - 2)) /\
  fst (NextPeer_calls heap_all_alive 3 (poolABC (2 ^ 64 - 2))) =
    [Ok (Some 0%nat); Ok (Some 0%nat); Ok (Some 1%nat)] /\
  ~ round_robin_cycle heap_all_alive (poolABC (2 ^ 64 - 2)).
Proof.
  split; [unfold len; cbn; lia|].
  split; [intros b _; reflexivity|].
  split; [vm_compute; reflexivity|].
  intros [visited [again [Hres [Hlen [Hperm _]]]]].
  assert (E : fst (NextPeer_calls heap_all_alive
                     (S (List.length (backends (poolABC (2 ^ 64 - 2)))))
                     (poolABC (2 ^ 64 - 2))) =
              [Ok (Some 0%nat); Ok (Some 0%nat); Ok (Some 1%nat);
               Ok (Some 2%nat)])
    by (vm_compute; reflexivity).
  rewrite E in Hres. clear E.
  cbn [poolABC backends List.length] in Hlen.
  destruct visited as [|a [|b [|c [|d visited]]]]; try discriminate Hlen.
  cbn in Hres. injection Hres as Ha Hb Hc _. subst a b c.
  assert (Hin : In 2%nat [0%nat; 0%nat; 1%nat]).
  { apply (Permutation_in 2%nat (Permutation_sym Hperm)). cbn. tauto. }
  cbn in Hin. intuition discriminate.
Qed.

Lemma NextPeer_round_robin_cycle_witness :
  1 <= len (poolABC 0) /\ pool_addressable (poolABC 0) /\
  all_alive heap_all_alive (poolABC 0) /\
  is_uint64 (current (poolABC 0)) /\
  (current (poolABC 0) + len (poolABC 0) + 1 <= max_uint64 \/
   (len (poolABC 0) | 2 ^ 64)) /\
  round_robin_cycle heap_all_alive (poolABC 0).
Proof.
  assert (H1 : 1 <= len (poolABC 0)) by (unfold len; cbn; lia).
  assert (H2 : pool_addressable (poolABC 0))
    by (unfold pool_addressable, max_int, len; cbn; lia).
  assert (H3 : all_alive heap_all_alive (poolABC 0))
    by (intros b _; reflexivity).
  assert (H4 : is_uint64 (current (poolABC 0)))
    by (unfold is_uint64, max_uint64; cbn; lia).
  assert (H5 : current (poolABC 0) + len (poolABC 0) + 1 <= max_uint64 \/
               (len (poolABC 0) | 2 ^ 64))
    by (left; unfold max_uint64, len; cbn; lia).
  repeat (split; [assumption|]).
  exact (NextPeer_round_robin_cycle heap_all_alive (poolABC 0) H1 H2 H3 H4 H5).
Defined.

(** ** The empty pool *)

(** C2: on a pool of no backends [NextIndex] reduces the counter modulo zero
    and panics, and [NextPeer], which starts with [NextIndex], panics with
    it; the counter has been incremented by then. *)
Theorem NextIndex_empty_pool_panics (h : Heap) (c : Z) :
  NextIndex (empty_pool c) =
    (Panic DivideByZero, empty_pool (to_uint64 (c + 1))) /\
  NextPeer h (empty_pool c) =
    (Panic DivideByZero, empty_pool (to_uint64 (c + 1))).
Proof. split; reflexivity. Qed.

(** ** The counter *)

(** C6: on a pool of [N >= 1] backends [NextIndex] stores the counter plus
    one, wrapped to 64 bits, and returns that value modulo [N], an index of
    [[0, N)]; from the maximum of [uint64] the counter wraps to zero and the
    index is 0. *)
Theorem NextIndex_wraps_to_valid_index (s : ServerPool) :
  1 <= len s -> len_is_int s ->
  NextIndex s =
    (Ok (to_uint64 (current s + 1) mod len s),
     set_current s (to_uint64 (current s + 1))) /\
  0 <= to_uint64 (current s + 1) mod len s < len s /\
  (current s = max_uint64 -> NextIndex s = (Ok 0, set_current s 0)).
Proof.
  intros Hpos Hint. split; [|split].
  - now apply NextIndex_eq.
  - apply Z.mod_pos_bound. lia.
  - intros Hmax. rewrite NextIndex_eq by assumption.
    rewrite Hmax. change (to_uint64 (max_uint64 + 1)) with 0.
    rewrite Z.mod_0_l by lia. reflexivity.
Qed.

Lemma NextIndex_wraps_to_valid_index_witness :
  1 <= len (poolABC max_uint64) /\ len_is_int (poolABC max_uint64) /\
  NextIndex (poolABC max_uint64) =
    (Ok (to_uint64 (current (poolABC max_uint64) + 1)
         mod len (poolABC max_uint64)),
     set_current (poolABC max_uint64)
       (to_uint64 (current (poolABC max_uint64) + 1))) /\
  0 <= to_uint64 (current (poolABC max_uint64) + 1)
       mod len (poolABC max_uint64) < len (poolABC max_uint64) /\
  (current (poolABC max_uint64) = max_uint64 ->
   NextIndex (poolABC max_uint64) = (Ok 0, set_current (poolABC max_uint64) 0)).
Proof.
  split; [|split].
  - unfold len. cbn. lia.
  - unfold len_is_int, max_int, len. cbn. lia.
  - apply (NextIndex_wraps_to_valid_index (poolABC max_uint64)).
    + unfold len. cbn. lia.
    + unfold len_is_int, max_int, len. cbn. lia.
Defined.

Lemma find_first (f : nat -> bool) (n : nat) :
  forall a k : nat,
    (a <= k < a + n)%nat -> f k = true ->
    (forall j, (a <= j < k)%nat -> f j = false) ->
    find f (seq a n) = Some k.
Proof.
  induction n as [|n IH]; intros a k Hk Hf Hbefore; [lia|].
  cbn [seq find]. destruct (Nat.eq_dec a k) as [->|Hne].
  - now rewrite Hf.
  - rewrite (Hbefore a) by lia. apply IH; [lia|exact Hf|].
    intros j Hj. apply Hbefore. lia.
Qed.

(** C4: when the first live backend on the ring is met [k > 0] steps after
    [start], [NextPeer] returns it and leaves its index in the counter; and
    on the pool [A(dead), B(alive), C(alive)] with the counter at 0 the first
    call returns [B] and leaves the counter at 1, the index of [B]. *)
Theorem NextPeer_stores_index_of_later_peer :
  (forall (h : Heap) (s : ServerPool) (k : nat),
      1 <= len s -> pool_addressable s ->
      (0 < k < List.length (backends s))%nat ->
      (forall j, (j < k)%nat ->
         live_at h s
           (ring_index s (to_uint64 (current s + 1) mod len s) j) = false) ->
      live_at h s
        (ring_index s (to_uint64 (current s + 1) mod len s) k) = true ->
      NextPeer h s =
        (Ok (Some (slot s
                     (ring_index s (to_uint64 (current s + 1) mod len s) k))),
         set_current s
           (ring_index s (to_uint64 (current s + 1) mod len s) k))) /\
  (NextPeer heapABC (poolABC 0) = (Ok (Some 1%nat), poolABC 1) /\
   slot (poolABC 0) 1 = 1%nat).
Proof.
  split.
  - intros h s k Hpos Haddr Hk Hdead Hlive.
    rewrite NextPeer_eq by assumption. cbv zeta.
    unfold first_live.
    rewrite (find_first _ _ 0%nat k); [| lia | exact Hlive |].
    + destruct k as [|k]; [lia|]. reflexivity.
    + intros j Hj. apply Hdead. lia.
  - split; reflexivity.
Qed.

Lemma NextPeer_stores_index_of_later_peer_witness :
  1 <= len (poolABC 2) /\ pool_addressable (poolABC 2) /\
  (0 < 1 < List.length (backends (poolABC 2)))%nat /\
  (forall j, (j < 1)%nat ->
     live_at heapABC (poolABC 2)
       (ring_index (poolABC 2)
          (to_uint64 (current (poolABC 2) + 1) mod len (poolABC 2)) j) =
     false) /\
  live_at heapABC (poolABC 2)
    (ring_index (poolABC 2)
       (to_uint64 (current (poolABC 2) + 1) mod len (poolABC 2)) 1) = true /\
  NextPeer heapABC (poolABC 2) =
    (Ok (Some (slot (poolABC 2)
                 (ring_index (poolABC 2)
                    (to_uint64 (current (poolABC 2) + 1) mod len (poolABC 2))
                    1))),
     set_current (poolABC 2)
       (ring_index (poolABC 2)
          (to_uint64 (current (poolABC 2) + 1) mod len (poolABC 2)) 1)).
Proof.
  assert (H1 : 1 <= len (poolABC 2)) by (unfold len; cbn; lia).
  assert (H2 : pool_addressable (poolABC 2))
    by (unfold pool_addressable, max_int, len; cbn; lia).
  assert (H3 : (0 < 1 < List.length (backends (poolABC 2)))%nat)
    by (cbn; lia).
  assert (H4 : forall j, (j < 1)%nat ->
     live_at heapABC (poolABC 2)
       (ring_index (poolABC 2)
          (to_uint64 (current (poolABC 2) + 1) mod len (poolABC 2)) j) = false).
  { intros j Hj. assert (j = 0%nat) as -> by lia. reflexivity. }
  assert (H5 : live_at heapABC (poolABC 2)
    (ring_index (poolABC 2)
       (to_uint64 (current (poolABC 2) + 1) mod len (poolABC 2)) 1) = true)
    by reflexivity.
  repeat (split; [assumption|]).
  exact (proj1 NextPeer_stores_index_of_later_peer
           heapABC (poolABC 2) 1%nat H1 H2 H3 H4 H5).
Defined.

(** C5 as stated fails: [NextPeer] stores the index of the backend it
    returns, which may be below the counter it read.  On the pool
    [A(dead), B(alive), C(alive)] with the counter at 2, far from the wrap,
    the call leaves the counter at 1. *)
Lemma NextPeer_moves_counter_backward :
  current (poolABC 2) < max_uint64 /\
  current (snd (NextPeer heapABC (poolABC 2))) = 1 /\
  ~ never_moves_backward (fun s => snd (NextPeer heapABC s)) (poolABC 2).
Proof.
  split; [unfold max_uint64; cbn; lia|].
  split; [reflexivity|].
  unfold never_moves_backward, max_uint64.
  change (current (snd (NextPeer heapABC (poolABC 2)))) with 1.
  cbn [poolABC current]. lia.
Qed.

Lemma first_live_cases (h : Heap) (s : ServerPool) (start : Z) :
  1 <= len s ->
  (live_at h s (ring_index s start 0) = true ->
   first_live h s start = Some 0%nat) /\
  (live_at h s (ring_index s start 0) = false ->
   forall k, first_live h s start = Some k ->
             (0 < k)%nat /\ Z.of_nat k < len s /\
             live_at h s (ring_index s start k) = true).
Proof.
  intros Hpos. unfold first_live.
  assert (Hlen : Z.of_nat (List.length (backends s)) = len s) by reflexivity.
  destruct (List.length (backends s)) as [|n]; [lia|].
  cbn [seq find]. split; intros Hl; rewrite Hl; [reflexivity|].
  intros k Hk. apply find_some in Hk. destruct Hk as [Hin Hlive].
  apply in_seq in Hin. repeat split; [lia|lia|exact Hlive].
Qed.

Lemma first_live_none_all_dead (h : Heap) (s : ServerPool) (start : Z) :
  1 <= len s -> first_live h s start = None ->
  forall b, In b (backends s) -> IsAlive h b = false.
Proof.
  intros Hpos Hnone b Hb. unfold first_live in Hnone.
  destruct (In_slot s b Hb) as [i [Hi <-]].
  pose proof (scan_order_complete s start i Hpos Hi) as Hin.
  unfold scan_order in Hin. apply in_map_iff in Hin.
  destruct Hin as [k [<- Hk]].
  exact (find_none _ _ Hnone k Hk).
Qed.

(** C5, amended: [NextIndex] writes the counter plus one, wrapped to 64 bits,
    so it never writes less than it read, the wrap at the maximum apart.
    [NextPeer] leaves that incremented value in the counter when the backend
    at the start index is alive or when no backend is alive; when the backend
    at the start index is dead and some backend is alive, it returns the
    backend of another index and overwrites the counter with that index, in
    [[0, N)], which may be below the value read. *)
Theorem counter_after_NextIndex_and_NextPeer (h : Heap) (s : ServerPool) :
  is_uint64 (current s) -> 1 <= len s -> pool_addressable s ->
  current (snd (NextIndex s)) = to_uint64 (current s + 1) /\
  never_moves_backward (fun s0 => snd (NextIndex s0)) s /\
  (live_at h s (to_uint64 (current s + 1) mod len s) = true \/
   (forall b, In b (backends s) -> IsAlive h b = false) ->
   current (snd (NextPeer h s)) = to_uint64 (current s + 1)) /\
  (live_at h s (to_uint64 (current s + 1) mod len s) = false ->
   (exists b, In b (backends s) /\ IsAlive h b = true) ->
   exists index : Z,
     0 <= index < len s /\
     index <> to_uint64 (current s + 1) mod len s /\
     live_at h s index = true /\
     fst (NextPeer h s) = Ok (Some (slot s index)) /\
     current (snd (NextPeer h s)) = index).
Proof.
  intros [Hc0 Hc1] Hpos Haddr. unfold max_uint64 in Hc1.
  assert (E : current (snd (NextIndex s)) = to_uint64 (current s + 1)).
  { rewrite NextIndex_eq; [reflexivity|exact Hpos|].
    now apply addressable_is_int. }
  split; [exact E|]. split.
  { unfold never_moves_backward, max_uint64. intros Hlt.
    rewrite E, to_uint64_small by lia. lia. }
  rewrite NextPeer_eq by assumption. cbv zeta.
  set (start := to_uint64 (current s + 1) mod len s).
  assert (Hstart : 0 <= start < len s) by (apply Z.mod_pos_bound; lia).
  assert (H0 : ring_index s start 0 = start).
  { unfold ring_index. change (Z.of_nat 0) with 0. rewrite Z.add_0_r.
    now apply Z.mod_small. }
  destruct (first_live_cases h s start Hpos) as [Hzero Hlater].
  rewrite H0 in Hzero, Hlater.
  split.
  - intros [Hlive|Hdead].
    + rewrite (Hzero Hlive). reflexivity.
    + destruct (first_live h s start) as [k|] eqn:Ek; [|reflexivity].
      exfalso. unfold first_live in Ek. apply find_some in Ek.
      destruct Ek as [_ Hlive]. unfold live_at in Hlive.
      rewrite Hdead in Hlive; [discriminate Hlive|].
      apply slot_In. now apply ring_index_range.
  - intros Hdead [b [Hb Hbl]].
    destruct (first_live h s start) as [k|] eqn:Ek.
    + destruct (Hlater Hdead k eq_refl) as [Hk0 [Hkn Hlive]].
      exists (ring_index s start k).
      split; [now apply ring_index_range|].
      split; [|split; [exact Hlive|]].
      * rewrite <- H0 at 2. intros Heq.
        apply ring_index_inj in Heq; [lia|exact Hpos|exact Hkn|].
        change (Z.of_nat 0) with 0. lia.
      * destruct k as [|k]; [lia|]. split; reflexivity.
    + rewrite (first_live_none_all_dead h s start Hpos Ek b Hb) in Hbl.
      discriminate Hbl.
Qed.

Lemma counter_after_NextIndex_and_NextPeer_witness :
  is_uint64 (current (poolABC 2)) /\ 1 <= len (poolABC 2) /\
  pool_addressable (poolABC 2) /\
  current (snd (NextIndex (poolABC 2))) =
    to_uint64 (current (poolABC 2) + 1) /\
  never_moves_backward (fun s0 => snd (NextIndex s0)) (poolABC 2) /\
  (live_at heapABC (poolABC 2)
     (to_uint64 (current (poolABC 2) + 1) mod len (poolABC 2)) = true \/
   (forall b, In b (backends (poolABC 2)) -> IsAlive heapABC b = false) ->
   current (snd (NextPeer heapABC (poolABC 2))) =
     to_uint64 (current (poolABC 2) + 1)) /\
  (live_at heapABC (poolABC 2)
     (to_uint64 (current (poolABC 2) + 1) mod len (poolABC 2)) = false ->
   (exists b, In b (backends (poolABC 2)) /\ IsAlive heapABC b = true) ->
   exists index : Z,
     0 <= index < len (poolABC 2) /\
     index <> to_uint64 (current (poolABC 2) + 1) mod len (poolABC 2) /\
     live_at heapABC (poolABC 2) index = true /\
     fst (NextPeer heapABC (poolABC 2)) = Ok (Some (slot (poolABC 2) index)) /\
     current (snd (NextPeer heapABC (poolABC 2))) = index) /\
  live_at heapABC (poolABC 2)
    (to_uint64 (current (poolABC 2) + 1) mod len (poolABC 2)) = false /\
  (exists b, In b (backends (poolABC 2)) /\ IsAlive heapABC b = true).
Proof.
  assert (H1 : is_uint64 (current (poolABC 2)))
    by (unfold is_uint64, max_uint64; cbn; lia).
  assert (H2 : 1 <= len (poolABC 2)) by (unfold len; cbn; lia).
  assert (H3 : pool_addressable (poolABC 2))
    by (unfold pool_addressable, max_int, len; cbn; lia).
  repeat (split; [assumption|]).
  pose proof (counter_after_NextIndex_and_NextPeer heapABC (poolABC 2)
                H1 H2 H3) as [Ha [Hb [Hc Hd]]].
  repeat (split; [assumption|]).
  split; [reflexivity|].
  exists 1%nat. split; [cbn; tauto|reflexivity].
Defined.

(** ** Health monitor *)

Section HealthMonitorFacts.

Variable World : Type.
Variable DialTimeout : string -> string -> Z -> World -> bool * World.
Variable AwaitTick : Z -> World -> World.

Local Abbreviation probe := (isAliveCheck World DialTimeout).
Local Abbreviation probe_all := (HealthCheck_range World DialTimeout).
Local Abbreviation tick := (HealthCheck_tick World DialTimeout).
Local Abbreviation ticks := (HealthCheck World DialTimeout AwaitTick).

Lemma SetAlive_same (h : Heap) (b : ptr) (alive : bool) :
  IsAlive (SetAlive h b alive) b = alive.
Proof. unfold IsAlive, SetAlive. now rewrite Nat.eqb_refl. Qed.

Lemma SetAlive_other (h : Heap) (b p : ptr) (alive : bool) :
  p <> b -> SetAlive h b alive p = h p.
Proof.
  intros Hne. unfold SetAlive.
  destruct (Nat.eqb_spec p b); [contradiction|reflexivity].
Qed.

Lemma SetAlive_URL (h : Heap) (b p : ptr) (alive : bool) :
  URL (SetAlive h b alive p) = URL (h p).
Proof. unfold SetAlive. destruct (Nat.eqb p b); reflexivity. Qed.

Lemma HealthCheck_range_app (l1 l2 : list ptr) :
  forall (h : Heap) (w : World),
    probe_all (l1 ++ l2) h w =
    probe_all l2 (fst (probe_all l1 h w)) (snd (probe_all l1 h w)).
Proof.
  induction l1 as [|a l1 IH]; intros h w; [reflexivity|].
  cbn [app HealthCheck_range].
  destruct (probe (URL (h a)) w) as [status w'].
  apply IH.
Qed.

(** A round of probes leaves the backends it does not probe as they were. *)
Lemma HealthCheck_range_frame (l : list ptr) (b : ptr) :
  ~ In b l ->
  forall (h : Heap) (w : World), fst (probe_all l h w) b = h b.
Proof.
  induction l as [|a l IH]; intros Hnot h w; [reflexivity|].
  cbn [HealthCheck_range].
  destruct (probe (URL (h a)) w) as [status w'].
  rewrite IH by (intros Hin; apply Hnot; now right).
  apply SetAlive_other. intros ->. apply Hnot. now left.
Qed.

Lemma HealthCheck_range_URL (l : list ptr) (p : ptr) :
  forall (h : Heap) (w : World),
    URL (fst (probe_all l h w) p) = URL (h p).
Proof.
  induction l as [|a l IH]; intros h w; [reflexivity|].
  cbn [HealthCheck_range].
  destruct (probe (URL (h a)) w) as [status w'].
  rewrite IH. apply SetAlive_URL.
Qed.

(** Two heaps with the same URLs leave a round of probes with the same
    world and with the same flags on the backends probed. *)
Lemma HealthCheck_range_history (l : list ptr) :
  forall (h h' : Heap) (w : World) (P : ptr -> Prop),
    (forall p, URL (h' p) = URL (h p)) ->
    (forall p, P p -> Alive (h' p) = Alive (h p)) ->
    snd (probe_all l h' w) = snd (probe_all l h w) /\
    forall p, P p \/ In p l ->
              Alive (fst (probe_all l h' w) p) =
              Alive (fst (probe_all l h w) p).
Proof.
  induction l as [|a l IH]; intros h h' w P Hurl Hflag.
  - split; [reflexivity|]. intros p [Hp|[]]. now apply Hflag.
  - cbn [HealthCheck_range]. rewrite (Hurl a).
    destruct (probe (URL (h a)) w) as [status w'].
    destruct (IH (SetAlive h a status) (SetAlive h' a status) w'
                 (fun p => P p \/ p = a)) as [Hw Hp].
    + intros p. now rewrite !SetAlive_URL.
    + intros p Hp. unfold SetAlive.
      destruct (Nat.eqb_spec p a) as [->|Hne]; [reflexivity|].
      destruct Hp as [Hp|Hp]; [now apply Hflag|contradiction].
    + split; [exact Hw|]. intros p Hin. apply Hp.
      cbn [In] in Hin. intuition auto.
Qed.

(** The state after [n + 1] ticks is what the last tick makes of the state
    after [n] ticks. *)
Lemma HealthCheck_last_tick (s : ServerPool) (n : nat) :
  forall (h : Heap) (w : World),
    ticks (S n) s h w =
    tick s (fst (ticks n s h w))
         (AwaitTick HealthCheck_interval (snd (ticks n s h w))).
Proof.
  induction n as [|n IH]; intros h w.
  - cbn [HealthCheck fst snd].
    now destruct (tick s h (AwaitTick HealthCheck_interval w)).
  - change (ticks (S (S n)) s h w)
      with (let (h', w') := tick s h (AwaitTick HealthCheck_interval w) in
            ticks (S n) s h' w').
    change (ticks (S n) s h w)
      with (let (h', w') := tick s h (AwaitTick HealthCheck_interval w) in
            ticks n s h' w').
    destruct (tick s h (AwaitTick HealthCheck_interval w)) as [h' w'].
    apply IH.
Qed.

(** C7: after a tick the flag of a backend is the outcome of the last
    probe the tick made of it, whatever the flags were before: the same
    tick from a heap with other flags leaves the same flags on the
    backends of the pool.  One failed probe leaves the backend dead, one
    successful probe leaves it alive; and the state after any number of
    ticks is the state the last of them left. *)
Theorem HealthCheck_tick_sets_last_probe_outcome
  (s : ServerPool) (h : Heap) (w : World)
  (pre post : list ptr) (b : ptr) :
  backends s = pre ++ b :: post -> ~ In b post ->
  IsAlive (fst (HealthCheck_tick World DialTimeout s h w)) b =
    fst (isAliveCheck World DialTimeout (URL (h b))
           (snd (HealthCheck_range World DialTimeout pre h w))) /\
  (forall u w0, fst (isAliveCheck World DialTimeout u w0) =
                fst (DialTimeout "tcp"%string u isAliveCheck_timeout w0)) /\
  (forall h' : Heap,
      (forall p, URL (h' p) = URL (h p)) ->
      snd (HealthCheck_tick World DialTimeout s h' w) =
        snd (HealthCheck_tick World DialTimeout s h w) /\
      forall p, In p (backends s) ->
        IsAlive (fst (HealthCheck_tick World DialTimeout s h' w)) p =
        IsAlive (fst (HealthCheck_tick World DialTimeout s h w)) p) /\
  (forall n : nat,
      HealthCheck World DialTimeout AwaitTick (S n) s h w =
      HealthCheck_tick World DialTimeout s
        (fst (HealthCheck World DialTimeout AwaitTick n s h w))
        (AwaitTick HealthCheck_interval
           (snd (HealthCheck World DialTimeout AwaitTick n s h w)))).
Proof.
  intros Hsplit Hlast. split; [|split; [|split]].
  - unfold HealthCheck_tick.
    rewrite Hsplit, HealthCheck_range_app. cbn [HealthCheck_range].
    rewrite (HealthCheck_range_URL pre b h w).
    destruct (probe (URL (h b)) (snd (probe_all pre h w))) as [status w2].
    unfold IsAlive.
    rewrite (HealthCheck_range_frame post b Hlast).
    apply SetAlive_same.
  - intros u w0. unfold isAliveCheck.
    destruct (DialTimeout "tcp"%string u isAliveCheck_timeout w0)
      as [[|] w']; reflexivity.
  - intros h' Hurl. unfold HealthCheck_tick.
    destruct (HealthCheck_range_history (backends s) h h' w
                (fun _ => False) Hurl) as [Hw Hp].
    + intros p [].
    + split; [exact Hw|]. intros p Hin. unfold IsAlive. apply Hp.
      now right.
  - intros n. apply HealthCheck_last_tick.
Qed.

End HealthMonitorFacts.

Lemma HealthCheck_tick_sets_last_probe_outcome_witness :
  backends poolB = [] ++ 1%nat :: [] /\ ~ In 1%nat [] /\
  IsAlive (fst (HealthCheck_tick nat alternating_dial poolB heapABC 1%nat))
    1%nat =
    fst (isAliveCheck nat alternating_dial (URL (heapABC 1%nat))
           (snd (HealthCheck_range nat alternating_dial [] heapABC 1%nat))) /\
  (forall u w0, fst (isAliveCheck nat alternating_dial u w0) =
                fst (alternating_dial "tcp"%string u
                       isAliveCheck_timeout w0)) /\
  (forall h' : Heap,
      (forall p, URL (h' p) = URL (heapABC p)) ->
      snd (HealthCheck_tick nat alternating_dial poolB h' 1%nat) =
        snd (HealthCheck_tick nat alternating_dial poolB heapABC 1%nat) /\
      forall p, In p (backends poolB) ->
        IsAlive (fst (HealthCheck_tick nat alternating_dial poolB h' 1%nat)) p =
        IsAlive
          (fst (HealthCheck_tick nat alternating_dial poolB heapABC 1%nat))
          p) /\
  (forall n : nat,
      HealthCheck nat alternating_dial instant_tick (S n) poolB heapABC 1%nat =
      HealthCheck_tick nat alternating_dial poolB
        (fst (HealthCheck nat alternating_dial instant_tick n poolB heapABC
                1%nat))
        (instant_tick HealthCheck_interval
           (snd (HealthCheck nat alternating_dial instant_tick n poolB
                   heapABC 1%nat)))).
Proof.
  split; [reflexivity|]. split; [intros []|].
  exact (HealthCheck_tick_sets_last_probe_outcome nat alternating_dial
           instant_tick poolB heapABC 1%nat [] [] 1%nat eq_refl
           (fun H : False => H)).
Defined.

(** C8 as stated fails: the timeout of the probe is not shorter than the
    period of the ticker. *)
Lemma probe_timeout_not_shorter_than_interval :
  ~ isAliveCheck_timeout < HealthCheck_interval.
Proof. unfold isAliveCheck_timeout, HealthCheck_interval, Second. lia. Qed.

(** C8, amended: the timeout of the probe equals the period of the ticker,
    two seconds each, so the timeout is bounded by the period, not strictly
    below it; and this is the timeout [isAliveCheck] dials with. *)
Theorem probe_timeout_equals_interval :
  isAliveCheck_timeout = 2 * Second /\
  HealthCheck_interval = 2 * Second /\
  isAliveCheck_timeout <= HealthCheck_interval /\
  forall (World : Type)
         (DialTimeout : string -> string -> Z -> World -> bool * World)
         (u : string) (w : World),
    fst (isAliveCheck World DialTimeout u w) =
    fst (DialTimeout "tcp"%string u HealthCheck_interval w).
Proof.
  split; [reflexivity|]. split; [reflexivity|]. split.
  - unfold isAliveCheck_timeout, HealthCheck_interval, Second. lia.
  - intros World DialTimeout u w. unfold isAliveCheck.
    change isAliveCheck_timeout with HealthCheck_interval.
    destruct (DialTimeout "tcp"%string u HealthCheck_interval w)
      as [[|] w']; reflexivity.
Qed.

(** ** Dispatch facade *)

(** C9: past the cap of 3 attempts [LbHandlerWithHealthCheck] answers 503 and
    leaves the pool as it was, whatever the pool and the heap are: [NextPeer]
    is not called.  At or below the cap it calls [NextPeer] and hands the
    request to the peer returned, or answers 503 when [NextPeer] returns
    nil. *)
Theorem LbHandlerWithHealthCheck_cap (h : Heap) (r : Request) (s : ServerPool) :
  (3 < GetAttemptsFromContext r ->
   LbHandlerWithHealthCheck h r s =
     (Ok (HttpError "Service not available" 503), s)) /\
  (GetAttemptsFromContext r <= 3 ->
   LbHandlerWithHealthCheck h r s = dispatch (NextPeer h s) /\
   (forall b s', NextPeer h s = (Ok (Some b), s') ->
                 LbHandlerWithHealthCheck h r s = (Ok (ServeHTTP b), s')) /\
   (forall s', NextPeer h s = (Ok None, s') ->
               LbHandlerWithHealthCheck h r s =
                 (Ok (HttpError "Service not available" 503), s'))).
Proof.
  assert (Hd : GetAttemptsFromContext r <= 3 ->
               LbHandlerWithHealthCheck h r s = dispatch (NextPeer h s)).
  { intros Hle. unfold LbHandlerWithHealthCheck.
    destruct (GetAttemptsFromContext r >? 3) eqn:E;
      [apply Z.gtb_lt in E; lia|].
    unfold bind, dispatch.
    destruct (NextPeer h s) as [[[b|]|e] s']; reflexivity. }
  split.
  - intros Hgt. unfold LbHandlerWithHealthCheck.
    destruct (GetAttemptsFromContext r >? 3) eqn:E; [reflexivity|].
    rewrite Z.gtb_ltb in E. apply Z.ltb_ge in E. lia.
  - intros Hle. split; [now apply Hd|]. split.
    + intros b s' E. rewrite Hd, E by exact Hle. reflexivity.
    + intros s' E. rewrite Hd, E by exact Hle. reflexivity.
Qed.

Lemma LbHandlerWithHealthCheck_cap_witness :
  (3 < GetAttemptsFromContext (request_with_attempts (VInt 4)) /\
   LbHandlerWithHealthCheck heapABC (request_with_attempts (VInt 4))
     (empty_pool 0) =
     (Ok (HttpError "Service not available" 503), empty_pool 0)) /\
  (GetAttemptsFromContext (request_with_attempts (VInt 3)) <= 3 /\
   LbHandlerWithHealthCheck heapABC (request_with_attempts (VInt 3))
     (poolABC 0) = (Ok (ServeHTTP 1%nat), poolABC 1)).
Proof.
  assert (H4 : 3 < GetAttemptsFromContext (request_with_attempts (VInt 4)))
    by (cbn; lia).
  assert (H3 : GetAttemptsFromContext (request_with_attempts (VInt 3)) <= 3)
    by (cbn; lia).
  split; split; try assumption.
  - exact (proj1 (LbHandlerWithHealthCheck_cap heapABC
                    (request_with_attempts (VInt 4)) (empty_pool 0)) H4).
  - exact (proj1 (proj2 (proj2 (LbHandlerWithHealthCheck_cap heapABC
                    (request_with_attempts (VInt 3)) (poolABC 0)) H3))
             1%nat (poolABC 1) eq_refl).
Defined.

Lemma Value_absent (ctx : Context) (key : GoValue) :
  (forall k v, In (k, v) ctx -> GoValue_eqb k key = false) ->
  Value ctx key = VNil.
Proof.
  induction ctx as [|[k v] ctx IH]; intros Habs; [reflexivity|].
  cbn [Value]. rewrite (Habs k v) by now left.
  apply IH. intros k' v' Hin. apply (Habs k' v'). now right.
Qed.

(** C10: when the context of the request has no value under [AttemptsKey],
    or one that is not an [int], [GetAttemptsFromContext] returns 0 and
    [LbHandlerWithHealthCheck] does what [LbHandler] does: it goes to
    [NextPeer], the cap does not reject the request. *)
Theorem GetAttemptsFromContext_defaults_to_zero (r : Request) :
  (forall k v, In (k, v) (RequestContext r) ->
               GoValue_eqb k AttemptsKey = false) \/
  (forall n, Value (RequestContext r) AttemptsKey <> VInt n) ->
  GetAttemptsFromContext r = 0 /\
  forall (h : Heap) (s : ServerPool),
    LbHandlerWithHealthCheck h r s = LbHandler h r s /\
    LbHandlerWithHealthCheck h r s = dispatch (NextPeer h s).
Proof.
  intros Hctx.
  assert (H0 : GetAttemptsFromContext r = 0).
  { unfold GetAttemptsFromContext. destruct Hctx as [Habs|Hnot].
    - now rewrite Value_absent.
    - destruct (Value (RequestContext r) AttemptsKey) as [|n| | |] eqn:E;
        try reflexivity.
      now destruct (Hnot n). }
  split; [exact H0|]. intros h s.
  unfold LbHandlerWithHealthCheck, LbHandler. rewrite H0. cbn [Z.gtb Z.compare].
  split; [reflexivity|].
  unfold bind, dispatch.
  destruct (NextPeer h s) as [[[b|]|e] s']; reflexivity.
Qed.

Lemma GetAttemptsFromContext_defaults_to_zero_witness :
  ((forall k v,
       In (k, v) (RequestContext (request_with_attempts (VString "4"))) ->
       GoValue_eqb k AttemptsKey = false) \/
   (forall n,
       Value (RequestContext (request_with_attempts (VString "4")))
         AttemptsKey <> VInt n)) /\
  GetAttemptsFromContext (request_with_attempts (VString "4")) = 0 /\
  forall (h : Heap) (s : ServerPool),
    LbHandlerWithHealthCheck h (request_with_attempts (VString "4")) s =
      LbHandler h (request_with_attempts (VString "4")) s /\
    LbHandlerWithHealthCheck h (request_with_attempts (VString "4")) s =
      dispatch (NextPeer h s).
Proof.
  assert (H : (forall k v,
       In (k, v) (RequestContext (request_with_attempts (VString "4"))) ->
       GoValue_eqb k AttemptsKey = false) \/
   (forall n,
       Value (RequestContext (request_with_attempts (VString "4")))
         AttemptsKey <> VInt n)).
  { right. intros n. cbn. discriminate. }
  split; [exact H|].
  exact (GetAttemptsFromContext_defaults_to_zero
           (request_with_attempts (VString "4")) H).
Defined.

(** * Further properties of the selector, the handlers and the monitor *)

(** ** What a call leaves in the pool *)

Lemma int_rem_state (x y : Z) (s : ServerPool) : snd (int_rem x y s) = s.
Proof. unfold int_rem. destruct (y =? 0); reflexivity. Qed.

Lemma backend_at_state (index : Z) (s : ServerPool) :
  snd (backend_at index s) = s /\
  forall b, fst (backend_at index s) = Ok b -> In b (backends s).
Proof.
  unfold backend_at.
  destruct ((index <? 0) || (len s <=? index)); [split; [reflexivity|]|].
  - intros b Hb. discriminate Hb.
  - destruct (nth_error (backends s) (Z.to_nat index)) as [b0|] eqn:E;
      (split; [reflexivity|]); intros b Hb; [|discriminate Hb].
    injection Hb as <-. now apply nth_error_In in E.
Qed.

Lemma NextIndex_state (s : ServerPool) :
  snd (NextIndex s) = set_current s (to_uint64 (current s + 1)).
Proof.
  unfold NextIndex, bind, AddUint64, get_len, uint64_rem.
  destruct (to_uint64 (len _) =? 0); reflexivity.
Qed.

Lemma NextPeer_loop_state (h : Heap) (next l : Z) (fuel : nat) :
  forall (i : Z) (s : ServerPool),
    snd (NextPeer_loop h next l fuel i s) = s \/
    exists index : Z,
      snd (NextPeer_loop h next l fuel i s) = set_current s (to_uint64 index).
Proof.
  induction fuel as [|fuel IH]; intros i s; [now left|].
  cbn [NextPeer_loop]. destruct (i <? l); [|now left].
  unfold bind, get_len.
  pose proof (int_rem_state i (len s) s) as H1.
  destruct (int_rem i (len s) s) as [[index|e] s1]; cbn [snd] in H1; subst s1;
    [|now left].
  pose proof (proj1 (backend_at_state index s)) as H2.
  destruct (backend_at index s) as [[b|e] s2]; cbn [snd] in H2; subst s2;
    [|now left].
  destruct (IsAlive h b); [|apply IH].
  destruct (negb (i =? next)); [right; exists index|left]; reflexivity.
Qed.

Lemma NextPeer_state (h : Heap) (s : ServerPool) :
  exists c : Z,
    snd (NextPeer h s) = set_current s (to_uint64 c).
Proof.
  unfold NextPeer. unfold bind at 1.
  pose proof (NextIndex_state s) as H1.
  destruct (NextIndex s) as [[next|e] s1]; cbn [snd] in H1; subst s1.
  - unfold bind, get_len.
    destruct (NextPeer_loop_state h next
                (to_int (len (set_current s (to_uint64 (current s + 1)))
                         + next))
                (Z.to_nat
                   (to_int (len (set_current s (to_uint64 (current s + 1)))
                            + next) - next))
                next (set_current s (to_uint64 (current s + 1))))
      as [E|[index E]]; rewrite E.
    + now exists (current s + 1).
    + now exists index.
  - now exists (current s + 1).
Qed.

(** X1: no call of [NextIndex] or [NextPeer] adds, drops or reorders a
    backend of the pool, and each leaves a counter within [uint64], on every
    pool, the empty one included, and whatever the counter was. *)
Theorem NextPeer_keeps_backends_and_counter_range (h : Heap) (s : ServerPool) :
  backends (snd (NextIndex s)) = backends s /\
  is_uint64 (current (snd (NextIndex s))) /\
  backends (snd (NextPeer h s)) = backends s /\
  is_uint64 (current (snd (NextPeer h s))).
Proof.
  assert (Hrange : forall z, is_uint64 (to_uint64 z)).
  { intros z. unfold is_uint64, max_uint64, to_uint64.
    pose proof (Z.mod_pos_bound z (2 ^ 64)). lia. }
  rewrite NextIndex_state.
  destruct (NextPeer_state h s) as [c ->].
  repeat split; try reflexivity; apply Hrange.
Qed.

(** ** What [NextPeer] reads *)

Lemma NextPeer_loop_flags (h h' : Heap) (next l : Z) (fuel : nat) :
  forall (i : Z) (s : ServerPool),
    (forall b, In b (backends s) -> IsAlive h b = IsAlive h' b) ->
    NextPeer_loop h next l fuel i s = NextPeer_loop h' next l fuel i s.
Proof.
  induction fuel as [|fuel IH]; intros i s Hsame; [reflexivity|].
  cbn [NextPeer_loop]. destruct (i <? l); [|reflexivity].
  unfold bind, get_len.
  pose proof (int_rem_state i (len s) s) as H1.
  destruct (int_rem i (len s) s) as [[index|e] s1]; cbn [snd] in H1; subst s1;
    [|reflexivity].
  destruct (backend_at_state index s) as [H2 Hin].
  destruct (backend_at index s) as [[b|e] s2]; cbn [fst snd] in H2, Hin;
    subst s2; [|reflexivity].
  rewrite <- (Hsame b (Hin b eq_refl)).
  destruct (IsAlive h b); [reflexivity|]. now apply IH.
Qed.

(** X2: [NextPeer] reads nothing of the heap but the liveness flags of the
    backends of the pool: two heaps that agree on them give the same result
    and the same counter, whatever the URLs and the other backends are. *)
Theorem NextPeer_reads_only_pool_flags (h h' : Heap) (s : ServerPool) :
  (forall b, In b (backends s) -> IsAlive h b = IsAlive h' b) ->
  NextPeer h s = NextPeer h' s.
Proof.
  intros Hsame. unfold NextPeer. unfold bind at 1 3.
  pose proof (NextIndex_state s) as H1.
  destruct (NextIndex s) as [[next|e] s1]; cbn [snd] in H1; subst s1;
    [|reflexivity].
  unfold bind, get_len. now apply NextPeer_loop_flags.
Qed.

Lemma NextPeer_reads_only_pool_flags_witness :
  (forall b, In b (backends (poolABC 0)) ->
             IsAlive heapABC b =
             IsAlive (SetAlive heapABC 7%nat false) b) /\
  NextPeer heapABC (poolABC 0) =
  NextPeer (SetAlive heapABC 7%nat false) (poolABC 0).
Proof.
  assert (H : forall b, In b (backends (poolABC 0)) ->
                IsAlive heapABC b =
                IsAlive (SetAlive heapABC 7%nat false) b).
  { intros b Hb. cbn in Hb.
    destruct Hb as [<-|[<-|[<-|[]]]]; reflexivity. }
  split; [exact H|].
  exact (NextPeer_reads_only_pool_flags heapABC
           (SetAlive heapABC 7%nat false) (poolABC 0) H).
Defined.

(** ** Panics *)

(** X3: on a pool whose slots all hold a backend (no slot is nil, as [ptr]
    has it) and whose size a slice of 8-byte pointers can have, the division
    in [NextIndex] and the indexing [s.backends[index]] in [NextPeer] go
    wrong exactly when the pool is empty, and then it is the division, by
    zero: the index taken is never out of range. *)
Theorem NextPeer_panics_iff_empty (h : Heap) (s : ServerPool)
  (e : RuntimeError) :
  pool_addressable s ->
  (fst (NextPeer h s) = Panic e <-> backends s = [] /\ e = DivideByZero).
Proof.
  intros Haddr. destruct s as [[|b bs] c].
  - change (fst (NextPeer h {| backends := []; current := c |}))
      with (@Panic (option ptr) DivideByZero).
    split.
    + intros He. injection He as <-. now split.
    + intros [_ ->]. reflexivity.
  - rewrite NextPeer_result; [|unfold len; cbn [backends List.length]; lia
                               |exact Haddr].
    split; [discriminate|]. intros [Hnil _]. discriminate Hnil.
Qed.

Lemma NextPeer_panics_iff_empty_witness :
  pool_addressable (empty_pool 5) /\
  (fst (NextPeer heapABC (empty_pool 5)) = Panic DivideByZero <->
   backends (empty_pool 5) = [] /\ DivideByZero = DivideByZero).
Proof.
  assert (H : pool_addressable (empty_pool 5))
    by (unfold pool_addressable, max_int, len; cbn; lia).
  split; [exact H|].
  exact (NextPeer_panics_iff_empty heapABC (empty_pool 5) DivideByZero H).
Defined.

(** ** Calls in a row, with the liveness flags held fixed *)

Lemma NextPeer_some_alive (h : Heap) (s : ServerPool) (b : ptr) :
  1 <= len s -> pool_addressable s ->
  fst (NextPeer h s) = Ok (Some b) ->
  In b (backends s) /\ IsAlive h b = true.
Proof.
  intros Hpos Haddr Hres. rewrite NextPeer_result in Hres by assumption.
  destruct (find (live_at h s) (scan_order s _)) as [i|] eqn:E;
    [|discriminate Hres].
  injection Hres as <-. apply find_some in E. destruct E as [Hin Hlive].
  split; [|exact Hlive].
  apply slot_In. now apply scan_order_range in Hin.
Qed.

Lemma NextPeer_nil_all_dead (h : Heap) (s : ServerPool) :
  1 <= len s -> pool_addressable s ->
  (fst (NextPeer h s) = Ok None <->
   forall b, In b (backends s) -> IsAlive h b = false).
Proof.
  intros Hpos Haddr. rewrite NextPeer_result by assumption. split.
  - intros Hres b Hb.
    destruct (find (live_at h s) (scan_order s _)) as [i|] eqn:E;
      [discriminate Hres|].
    destruct (In_slot s b Hb) as [i [Hi <-]].
    apply (find_none _ _ E i). now apply scan_order_complete.
  - intros Hall. rewrite find_all_false; [reflexivity|].
    intros i Hi. apply Hall, slot_In. now apply scan_order_range in Hi.
Qed.

Lemma NextPeer_never_panics (h : Heap) (s : ServerPool) :
  1 <= len s -> pool_addressable s ->
  exists r : option ptr, fst (NextPeer h s) = Ok r.
Proof.
  intros Hpos Haddr. rewrite NextPeer_result by assumption. eauto.
Qed.

(** X4: while some backend of the pool is alive, every one of any number of
    consecutive calls of [NextPeer] returns a backend of the pool that is
    alive: none returns nil, none panics, none returns a dead backend,
    wherever the counter stands and wraps. *)
Theorem NextPeer_calls_return_alive (h : Heap) (k : nat) :
  forall s : ServerPool,
    1 <= len s -> pool_addressable s ->
    (exists b, In b (backends s) /\ IsAlive h b = true) ->
    List.length (fst (NextPeer_calls h k s)) = k /\
    forall r, In r (fst (NextPeer_calls h k s)) ->
              exists b, r = Ok (Some b) /\
                        In b (backends s) /\ IsAlive h b = true.
Proof.
  induction k as [|k IH]; intros s Hpos Haddr Hlive.
  - split; [reflexivity|]. intros r [].
  - cbn [NextPeer_calls].
    destruct (NextPeer_state h s) as [c Hst].
    destruct (NextPeer_never_panics h s Hpos Haddr) as [r0 Hr0].
    destruct (NextPeer h s) as [r1 s1] eqn:E. cbn [fst snd] in Hst, Hr0.
    subst r1 s1.
    assert (Hfst : fst (NextPeer h s) = Ok r0) by now rewrite E.
    destruct (IH (set_current s (to_uint64 c)) Hpos Haddr Hlive)
      as [Hlen Hall].
    destruct (NextPeer_calls h k (set_current s (to_uint64 c))) as [rs s2].
    cbn [fst] in *. split; [cbn [List.length]; now rewrite Hlen|].
    intros r [<-|Hin]; [|now apply Hall].
    destruct r0 as [b|].
    + exists b. split; [reflexivity|].
      now apply (NextPeer_some_alive h s b Hpos Haddr).
    + destruct Hlive as [b [Hb Hbl]].
      rewrite (proj1 (NextPeer_nil_all_dead h s Hpos Haddr) Hfst b Hb) in Hbl.
      discriminate Hbl.
Qed.

Lemma NextPeer_calls_return_alive_witness :
  1 <= len (poolABC 0) /\ pool_addressable (poolABC 0) /\
  (exists b, In b (backends (poolABC 0)) /\ IsAlive heapABC b = true) /\
  List.length (fst (NextPeer_calls heapABC 4 (poolABC 0))) = 4%nat /\
  forall r, In r (fst (NextPeer_calls heapABC 4 (poolABC 0))) ->
            exists b, r = Ok (Some b) /\
                      In b (backends (poolABC 0)) /\ IsAlive heapABC b = true.
Proof.
  assert (H1 : 1 <= len (poolABC 0)) by (unfold len; cbn; lia).
  assert (H2 : pool_addressable (poolABC 0))
    by (unfold pool_addressable, max_int, len; cbn; lia).
  assert (H3 : exists b, In b (backends (poolABC 0)) /\
                         IsAlive heapABC b = true).
  { exists 1%nat. split; [cbn; tauto|reflexivity]. }
  repeat (split; [assumption|]).
  exact (NextPeer_calls_return_alive heapABC 4 (poolABC 0) H1 H2 H3).
Defined.

(** X5: when [NextPeer] returns a backend, the counter it leaves, reduced
    modulo [N], is the index of that backend; and unless that counter is the
    maximum of [uint64], the next call scans the ring from the slot right
    after it.  So each call serves the first live backend after the one
    served before. *)
Theorem NextPeer_cursor_marks_returned_slot (h : Heap) (s : ServerPool)
  (b : ptr) :
  1 <= len s -> pool_addressable s ->
  fst (NextPeer h s) = Ok (Some b) ->
  slot s (current (snd (NextPeer h s)) mod len s) = b /\
  (current (snd (NextPeer h s)) < max_uint64 ->
   fst (NextPeer h (snd (NextPeer h s))) =
   Ok (option_map (slot s)
         (find (live_at h s)
            (scan_order s
               ((current (snd (NextPeer h s)) mod len s + 1) mod len s))))).
Proof.
  intros Hpos Haddr Hres.
  assert (Hx : exists x : Z,
             snd (NextPeer h s) = set_current s x /\ 0 <= x /\
             slot s (x mod len s) = b).
  { rewrite NextPeer_eq in Hres |- * by assumption. cbv zeta in *.
    set (c := to_uint64 (current s + 1)) in *.
    assert (Hc : 0 <= c) by (apply Z.mod_pos_bound; lia).
    destruct (first_live h s (c mod len s)) as [[|k]|];
      cbn [fst snd Nat.eqb] in *; [| |discriminate Hres].
    - exists c. split; [reflexivity|]. split; [exact Hc|].
      injection Hres as <-. f_equal. unfold ring_index.
      change (Z.of_nat 0) with 0. rewrite Z.add_0_r.
      now rewrite Z.mod_mod by lia.
    - exists (ring_index s (c mod len s) (S k)).
      pose proof (ring_index_range s (c mod len s) (S k) Hpos) as Hr.
      split; [reflexivity|]. split; [lia|].
      injection Hres as <-. f_equal. now apply Z.mod_small. }
  destruct Hx as [x [-> [Hx0 Hslot]]]. split; [exact Hslot|].
  cbn [set_current current]. unfold max_uint64. intros Hmax.
  rewrite NextPeer_result by assumption.
  cbn [set_current current]. rewrite len_set_current.
  rewrite to_uint64_small by lia.
  rewrite <- (Zplus_mod_idemp_l x 1 (len s)). reflexivity.
Qed.

Lemma NextPeer_cursor_marks_returned_slot_witness :
  1 <= len (poolABC 2) /\ pool_addressable (poolABC 2) /\
  fst (NextPeer heapABC (poolABC 2)) = Ok (Some 1%nat) /\
  slot (poolABC 2)
    (current (snd (NextPeer heapABC (poolABC 2))) mod len (poolABC 2)) =
    1%nat /\
  (current (snd (NextPeer heapABC (poolABC 2))) < max_uint64 ->
   fst (NextPeer heapABC (snd (NextPeer heapABC (poolABC 2)))) =
   Ok (option_map (slot (poolABC 2))
         (find (live_at heapABC (poolABC 2))
            (scan_order (poolABC 2)
               ((current (snd (NextPeer heapABC (poolABC 2)))
                 mod len (poolABC 2) + 1) mod len (poolABC 2)))))).
Proof.
  assert (H1 : 1 <= len (poolABC 2)) by (unfold len; cbn; lia).
  assert (H2 : pool_addressable (poolABC 2))
    by (unfold pool_addressable, max_int, len; cbn; lia).
  assert (H3 : fst (NextPeer heapABC (poolABC 2)) = Ok (Some 1%nat))
    by reflexivity.
  repeat (split; [assumption|]).
  exact (NextPeer_cursor_marks_returned_slot heapABC (poolABC 2) 1%nat
           H1 H2 H3).
Defined.

(** X6: a pool with a single live backend serves that backend at every
    call, wherever the counter stands. *)
Theorem NextPeer_returns_sole_live_backend (h : Heap) (s : ServerPool)
  (b : ptr) :
  1 <= len s -> pool_addressable s ->
  In b (backends s) -> IsAlive h b = true ->
  (forall b', In b' (backends s) -> IsAlive h b' = true -> b' = b) ->
  fst (NextPeer h s) = Ok (Some b).
Proof.
  intros Hpos Haddr Hin Hlive Hsole.
  destruct (NextPeer_never_panics h s Hpos Haddr) as [[b'|] Hres].
  - destruct (NextPeer_some_alive h s b' Hpos Haddr Hres) as [Hin' Hlive'].
    now rewrite Hres, (Hsole b' Hin' Hlive').
  - rewrite (proj1 (NextPeer_nil_all_dead h s Hpos Haddr) Hres b Hin)
      in Hlive.
    discriminate Hlive.
Qed.

Lemma NextPeer_returns_sole_live_backend_witness :
  1 <= len (poolABC 7) /\ pool_addressable (poolABC 7) /\
  In 2%nat (backends (poolABC 7)) /\
  IsAlive (SetAlive heapABC 1%nat false) 2%nat = true /\
  (forall b', In b' (backends (poolABC 7)) ->
              IsAlive (SetAlive heapABC 1%nat false) b' = true ->
              b' = 2%nat) /\
  fst (NextPeer (SetAlive heapABC 1%nat false) (poolABC 7)) =
    Ok (Some 2%nat).
Proof.
  assert (H1 : 1 <= len (poolABC 7)) by (unfold len; cbn; lia).
  assert (H2 : pool_addressable (poolABC 7))
    by (unfold pool_addressable, max_int, len; cbn; lia).
  assert (H3 : In 2%nat (backends (poolABC 7))) by (cbn; tauto).
  assert (H4 : IsAlive (SetAlive heapABC 1%nat false) 2%nat = true)
    by reflexivity.
  assert (H5 : forall b', In b' (backends (poolABC 7)) ->
                 IsAlive (SetAlive heapABC 1%nat false) b' = true ->
                 b' = 2%nat).
  { intros b' Hb Hl. cbn in Hb.
    destruct Hb as [<-|[<-|[<-|[]]]];
      [discriminate Hl|discriminate Hl|reflexivity]. }
  repeat (split; [assumption|]).
  exact (NextPeer_returns_sole_live_backend
           (SetAlive heapABC 1%nat false) (poolABC 7) 2%nat
           H1 H2 H3 H4 H5).
Defined.

(** X7: [k] consecutive calls of [NextIndex] on a pool of [N >= 1] backends
    advance the counter by [k] modulo [2^64], no step lost, and call [i]
    returns the counter it stored reduced modulo [N], an index of
    [[0, N)]. *)
Theorem NextIndex_calls_advance_counter (k : nat) :
  forall s : ServerPool,
    1 <= len s -> len_is_int s -> is_uint64 (current s) ->
    fst (NextIndex_calls k s) =
      map (fun i => Ok (to_uint64 (current s + 1 + Z.of_nat i) mod len s))
          (seq 0 k) /\
    snd (NextIndex_calls k s) =
      set_current s (to_uint64 (current s + Z.of_nat k)) /\
    forall r, In r (fst (NextIndex_calls k s)) ->
              exists index, r = Ok index /\ 0 <= index < len s.
Proof.
  assert (Hrange : forall z, is_uint64 (to_uint64 z)).
  { intros z. unfold is_uint64, max_uint64, to_uint64.
    pose proof (Z.mod_pos_bound z (2 ^ 64)). lia. }
  induction k as [|k IH]; intros s Hpos Hint Hcur.
  - split; [reflexivity|]. split; [|intros r []].
    cbn [NextIndex_calls snd]. change (Z.of_nat 0) with 0.
    rewrite Z.add_0_r, to_uint64_small;
      [now destruct s|unfold is_uint64, max_uint64 in Hcur; lia].
  - cbn [NextIndex_calls]. rewrite NextIndex_eq by assumption.
    destruct (IH (set_current s (to_uint64 (current s + 1))) Hpos Hint
                 (Hrange _)) as [Hres [Hst Hin]].
    destruct (NextIndex_calls k (set_current s (to_uint64 (current s + 1))))
      as [rs s2].
    cbn [fst snd set_current current backends] in *.
    rewrite len_set_current in Hres, Hin.
    assert (Hhead : forall i : nat,
               to_uint64 (to_uint64 (current s + 1) + 1 + Z.of_nat i) =
               to_uint64 (current s + 1 + Z.of_nat (S i))).
    { intros i.
      replace (to_uint64 (current s + 1) + 1 + Z.of_nat i)
        with (to_uint64 (current s + 1) + (1 + Z.of_nat i)) by lia.
      rewrite to_uint64_succ. f_equal. lia. }
    split; [|split].
    + cbn [seq map]. change (Z.of_nat 0) with 0. rewrite Z.add_0_r.
      f_equal. rewrite Hres, <- seq_shift, map_map.
      apply map_ext. intros i. now rewrite Hhead.
    + rewrite Hst. unfold set_current. cbn [backends]. f_equal.
      rewrite to_uint64_succ. f_equal. lia.
    + intros r [<-|Hr]; [|now apply Hin].
      eexists. split; [reflexivity|]. apply Z.mod_pos_bound. lia.
Qed.

Lemma NextIndex_calls_advance_counter_witness :
  1 <= len (poolABC max_uint64) /\ len_is_int (poolABC max_uint64) /\
  is_uint64 (current (poolABC max_uint64)) /\
  fst (NextIndex_calls 4 (poolABC max_uint64)) =
    map (fun i => Ok (to_uint64 (current (poolABC max_uint64) + 1 + Z.of_nat i)
                      mod len (poolABC max_uint64)))
        (seq 0 4) /\
  snd (NextIndex_calls 4 (poolABC max_uint64)) =
    set_current (poolABC max_uint64)
      (to_uint64 (current (poolABC max_uint64) + Z.of_nat 4)) /\
  forall r, In r (fst (NextIndex_calls 4 (poolABC max_uint64))) ->
            exists index, r = Ok index /\ 0 <= index < len (poolABC max_uint64).
Proof.
  assert (H1 : 1 <= len (poolABC max_uint64)) by (unfold len; cbn; lia).
  assert (H2 : len_is_int (poolABC max_uint64))
    by (unfold len_is_int, max_int, len; cbn; lia).
  assert (H3 : is_uint64 (current (poolABC max_uint64)))
    by (unfold is_uint64, max_uint64; cbn; lia).
  repeat (split; [assumption|]).
  exact (NextIndex_calls_advance_counter 4 (poolABC max_uint64) H1 H2 H3).
Defined.

(** ** The handlers *)

Lemma LbHandler_dispatch (h : Heap) (r : Request) (s : ServerPool) :
  LbHandler h r s = dispatch (NextPeer h s).
Proof.
  unfold LbHandler, bind, dispatch.
  destruct (NextPeer h s) as [[[b|]|e] s']; reflexivity.
Qed.

Lemma dispatch_alive_or_503 (h : Heap) (s : ServerPool) :
  1 <= len s -> pool_addressable s ->
  (forall b, fst (dispatch (NextPeer h s)) = Ok (ServeHTTP b) ->
             In b (backends s) /\ IsAlive h b = true) /\
  (fst (dispatch (NextPeer h s)) =
     Ok (HttpError "Service not available" 503) <->
   forall b, In b (backends s) -> IsAlive h b = false) /\
  ((exists b, In b (backends s) /\ IsAlive h b = true) ->
   exists b, fst (dispatch (NextPeer h s)) = Ok (ServeHTTP b)).
Proof.
  intros Hpos Haddr.
  pose proof (NextPeer_nil_all_dead h s Hpos Haddr) as Hnil.
  pose proof (fun b => NextPeer_some_alive h s b Hpos Haddr) as Hsome.
  destruct (NextPeer_never_panics h s Hpos Haddr) as [r0 Hr0].
  destruct (NextPeer h s) as [r1 s1]. cbn [fst] in *. subst r1.
  unfold dispatch. destruct r0 as [b0|]; cbn [fst].
  - split; [|split].
    + intros b Hb. injection Hb as <-. now apply Hsome.
    + split; [discriminate|]. intros Hall. apply Hnil in Hall.
      discriminate Hall.
    + eauto.
  - split; [|split].
    + discriminate.
    + split; [intros _; now apply Hnil|reflexivity].
    + intros [b [Hb Hbl]].
      rewrite (proj1 Hnil eq_refl b Hb) in Hbl. discriminate Hbl.
Qed.

(** X8: on a pool of [N >= 1] backends [LbHandler] calls [ServeHTTP] only on
    the proxy of a backend of the pool that is alive, does so whenever some
    backend is alive, answers 503 exactly when every backend is dead, and
    leaves the pool as [NextPeer] leaves it, whatever the request is.  What
    the proxy does once called is the transport's business and is not
    stated here. *)
Theorem LbHandler_forwards_to_alive_or_503 (h : Heap) (r : Request)
  (s : ServerPool) :
  1 <= len s -> pool_addressable s ->
  (forall b, fst (LbHandler h r s) = Ok (ServeHTTP b) ->
             In b (backends s) /\ IsAlive h b = true) /\
  (fst (LbHandler h r s) = Ok (HttpError "Service not available" 503) <->
   forall b, In b (backends s) -> IsAlive h b = false) /\
  ((exists b, In b (backends s) /\ IsAlive h b = true) ->
   exists b, fst (LbHandler h r s) = Ok (ServeHTTP b)) /\
  snd (LbHandler h r s) = snd (NextPeer h s).
Proof.
  intros Hpos Haddr. rewrite LbHandler_dispatch.
  destruct (dispatch_alive_or_503 h s Hpos Haddr) as [H1 [H2 H3]].
  split; [exact H1|]. split; [exact H2|]. split; [exact H3|].
  unfold dispatch. destruct (NextPeer h s) as [[[b|]|e] s']; reflexivity.
Qed.

Lemma LbHandler_forwards_to_alive_or_503_witness :
  1 <= len (poolABC 0) /\ pool_addressable (poolABC 0) /\
  (forall b,
      fst (LbHandler heapABC (mkRequest []) (poolABC 0)) = Ok (ServeHTTP b) ->
      In b (backends (poolABC 0)) /\ IsAlive heapABC b = true) /\
  (fst (LbHandler heapABC (mkRequest []) (poolABC 0)) =
     Ok (HttpError "Service not available" 503) <->
   forall b, In b (backends (poolABC 0)) -> IsAlive heapABC b = false) /\
  ((exists b, In b (backends (poolABC 0)) /\ IsAlive heapABC b = true) ->
   exists b,
     fst (LbHandler heapABC (mkRequest []) (poolABC 0)) = Ok (ServeHTTP b)) /\
  snd (LbHandler heapABC (mkRequest []) (poolABC 0)) =
    snd (NextPeer heapABC (poolABC 0)).
Proof.
  assert (H1 : 1 <= len (poolABC 0)) by (unfold len; cbn; lia).
  assert (H2 : pool_addressable (poolABC 0))
    by (unfold pool_addressable, max_int, len; cbn; lia).
  repeat (split; [assumption|]).
  exact (LbHandler_forwards_to_alive_or_503 heapABC (mkRequest [])
           (poolABC 0) H1 H2).
Defined.

(** X9: on a pool of [N >= 1] backends [LbHandlerWithHealthCheck], whatever
    the attempts of the request, calls [ServeHTTP] only on the proxy of a
    backend of the pool that is alive, and answers 503 when every backend is
    dead; with at most 3 attempts and some backend alive it does call
    [ServeHTTP] on one.  What the proxy does once called is not stated
    here. *)
Theorem LbHandlerWithHealthCheck_forwards_to_alive (h : Heap) (r : Request)
  (s : ServerPool) :
  1 <= len s -> pool_addressable s ->
  (forall b, fst (LbHandlerWithHealthCheck h r s) = Ok (ServeHTTP b) ->
             In b (backends s) /\ IsAlive h b = true) /\
  ((forall b, In b (backends s) -> IsAlive h b = false) ->
   fst (LbHandlerWithHealthCheck h r s) =
     Ok (HttpError "Service not available" 503)) /\
  (GetAttemptsFromContext r <= 3 ->
   (exists b, In b (backends s) /\ IsAlive h b = true) ->
   exists b, fst (LbHandlerWithHealthCheck h r s) = Ok (ServeHTTP b)).
Proof.
  intros Hpos Haddr.
  destruct (dispatch_alive_or_503 h s Hpos Haddr) as [H1 [H2 H3]].
  assert (E : LbHandlerWithHealthCheck h r s =
              if GetAttemptsFromContext r >? 3
              then (Ok (HttpError "Service not available" 503), s)
              else dispatch (NextPeer h s)).
  { unfold LbHandlerWithHealthCheck.
    destruct (GetAttemptsFromContext r >? 3); [reflexivity|].
    unfold bind, dispatch.
    destruct (NextPeer h s) as [[[b|]|e] s']; reflexivity. }
  rewrite E. destruct (GetAttemptsFromContext r >? 3) eqn:Egt; cbn [fst].
  - split; [discriminate|]. split; [reflexivity|].
    intros Hle. apply Z.gtb_lt in Egt. lia.
  - split; [exact H1|]. split; [apply H2|]. intros _. exact H3.
Qed.

Lemma LbHandlerWithHealthCheck_forwards_to_alive_witness :
  1 <= len (poolABC 0) /\ pool_addressable (poolABC 0) /\
  (forall b,
      fst (LbHandlerWithHealthCheck heapABC (request_with_attempts (VInt 2))
             (poolABC 0)) = Ok (ServeHTTP b) ->
      In b (backends (poolABC 0)) /\ IsAlive heapABC b = true) /\
  ((forall b, In b (backends (poolABC 0)) -> IsAlive heapABC b = false) ->
   fst (LbHandlerWithHealthCheck heapABC (request_with_attempts (VInt 2))
          (poolABC 0)) = Ok (HttpError "Service not available" 503)) /\
  (GetAttemptsFromContext (request_with_attempts (VInt 2)) <= 3 ->
   (exists b, In b (backends (poolABC 0)) /\ IsAlive heapABC b = true) ->
   exists b,
     fst (LbHandlerWithHealthCheck heapABC (request_with_attempts (VInt 2))
            (poolABC 0)) = Ok (ServeHTTP b)).
Proof.
  assert (H1 : 1 <= len (poolABC 0)) by (unfold len; cbn; lia).
  assert (H2 : pool_addressable (poolABC 0))
    by (unfold pool_addressable, max_int, len; cbn; lia).
  repeat (split; [assumption|]).
  exact (LbHandlerWithHealthCheck_forwards_to_alive heapABC
           (request_with_attempts (VInt 2)) (poolABC 0) H1 H2).
Defined.

(** ** The monitor and the selector together *)

Section HealthMonitorUse.

Variable World : Type.
Variable DialTimeout : string -> string -> Z -> World -> bool * World.
Variable AwaitTick : Z -> World -> World.



(** X10: however many ticks the monitor runs, it changes no URL, and it
    leaves a backend that is not in the pool as it was, flag included. *)
Theorem HealthCheck_keeps_URLs_and_other_backends (s : ServerPool)
  (p : ptr) (n : nat) :
  forall (h : Heap) (w : World),
    URL (fst (HealthCheck World DialTimeout AwaitTick n s h w) p) =
      URL (h p) /\
    (~ In p (backends s) ->
     fst (HealthCheck World DialTimeout AwaitTick n s h w) p = h p).
Proof.
  induction n as [|n IH]; intros h w; [now split|].
  cbn [HealthCheck]. unfold HealthCheck_tick.
  pose proof (HealthCheck_range_URL World DialTimeout (backends s) p h
                (AwaitTick HealthCheck_interval w)) as Hurl.
  pose proof (fun Hnot =>
                HealthCheck_range_frame World DialTimeout (backends s) p Hnot
                  h (AwaitTick HealthCheck_interval w)) as Hframe.
  destruct (HealthCheck_range World DialTimeout (backends s) h
              (AwaitTick HealthCheck_interval w)) as [h' w'].
  cbn [fst] in Hurl, Hframe.
  destruct (IH h' w') as [IHurl IHframe]. split.
  - now rewrite IHurl.
  - intros Hnot. now rewrite IHframe, Hframe.
Qed.


End HealthMonitorUse.


(** ** Backend record *)

(** X12: [IsAlive] reads back what [SetAlive] wrote last on that backend;
    [SetAlive] changes no other backend and no URL. *)
Theorem SetAlive_IsAlive_round_trip (h : Heap) (b p : ptr)
  (alive alive' : bool) :
  p <> b ->
  IsAlive (SetAlive h b alive) b = alive /\
  IsAlive (SetAlive (SetAlive h b alive) b alive') b = alive' /\
  SetAlive h b alive p = h p /\
  IsAlive (SetAlive (SetAlive h b alive) p alive') b = alive /\
  forall q, URL (SetAlive h b alive q) = URL (h q).
Proof.
  intros Hne. unfold IsAlive, SetAlive.
  rewrite !Nat.eqb_refl.
  destruct (Nat.eqb_spec p b) as [E|_]; [contradiction|].
  destruct (Nat.eqb_spec b p) as [E|_]; [now subst|].
  repeat split. intros q. destruct (Nat.eqb q b); reflexivity.
Qed.

Lemma SetAlive_IsAlive_round_trip_witness :
  2%nat <> 0%nat /\
  IsAlive (SetAlive heapABC 0%nat true) 0%nat = true /\
  IsAlive (SetAlive (SetAlive heapABC 0%nat true) 0%nat false) 0%nat =
    false /\
  SetAlive heapABC 0%nat true 2%nat = heapABC 2%nat /\
  IsAlive (SetAlive (SetAlive heapABC 0%nat true) 2%nat false) 0%nat = true /\
  forall q, URL (SetAlive heapABC 0%nat true q) = URL (heapABC q).
Proof.
  assert (H : 2%nat <> 0%nat) by discriminate.
  split; [exact H|].
  exact (SetAlive_IsAlive_round_trip heapABC 0%nat 2%nat true false H).
Defined.

(** ** The attempts of a request *)

Lemma GoValue_eqb_eq (x y : GoValue) : GoValue_eqb x y = true -> x = y.
Proof.
  destruct x, y; cbn [GoValue_eqb]; intros E; try discriminate E;
    try reflexivity.
  - apply Z.eqb_eq in E. now subst.
  - apply Z.eqb_eq in E. now subst.
  - apply Bool.eqb_prop in E. now subst.
  - apply String.eqb_eq in E. now subst.
Qed.

(** X13: [GetAttemptsFromContext] returns the [int] that the nearest pair
    under [AttemptsKey] holds, and a pair under any other key, the same
    number with another type included, does not change what it returns;
    with more than 3 attempts stored, [LbHandlerWithHealthCheck] answers 503
    and leaves the pool untouched. *)
Theorem GetAttemptsFromContext_nearest_value (ctx : Context) (n : Z)
  (k v : GoValue) :
  k <> AttemptsKey ->
  GetAttemptsFromContext (mkRequest ((AttemptsKey, VInt n) :: ctx)) = n /\
  GetAttemptsFromContext (mkRequest ((k, v) :: ctx)) =
    GetAttemptsFromContext (mkRequest ctx) /\
  GetAttemptsFromContext (mkRequest ((k, v) :: (AttemptsKey, VInt n) :: ctx)) =
    n /\
  (3 < n ->
   forall (h : Heap) (s : ServerPool),
     LbHandlerWithHealthCheck h
       (mkRequest ((k, v) :: (AttemptsKey, VInt n) :: ctx)) s =
     (Ok (HttpError "Service not available" 503), s)).
Proof.
  intros Hk.
  assert (Hneq : GoValue_eqb k AttemptsKey = false).
  { destruct (GoValue_eqb k AttemptsKey) eqn:E; [|reflexivity].
    now apply GoValue_eqb_eq in E. }
  assert (H2 : forall c, GetAttemptsFromContext (mkRequest ((k, v) :: c)) =
                         GetAttemptsFromContext (mkRequest c)).
  { intros c. unfold GetAttemptsFromContext.
    cbn [RequestContext Value]. now rewrite Hneq. }
  assert (H1 : forall c,
             GetAttemptsFromContext (mkRequest ((AttemptsKey, VInt n) :: c)) =
             n) by reflexivity.
  split; [apply H1|]. split; [apply H2|]. split; [now rewrite H2|].
  intros Hn h s. unfold LbHandlerWithHealthCheck. rewrite H2, H1.
  destruct (n >? 3) eqn:E; [reflexivity|].
  rewrite Z.gtb_ltb in E. apply Z.ltb_ge in E. lia.
Qed.

Lemma GetAttemptsFromContext_nearest_value_witness :
  VInt64 0 <> AttemptsKey /\
  GetAttemptsFromContext (mkRequest ((AttemptsKey, VInt 4) :: [])) = 4 /\
  GetAttemptsFromContext (mkRequest ((VInt64 0, VInt 9) :: [])) =
    GetAttemptsFromContext (mkRequest []) /\
  GetAttemptsFromContext
    (mkRequest ((VInt64 0, VInt 9) :: (AttemptsKey, VInt 4) :: [])) = 4 /\
  (3 < 4 ->
   forall (h : Heap) (s : ServerPool),
     LbHandlerWithHealthCheck h
       (mkRequest ((VInt64 0, VInt 9) :: (AttemptsKey, VInt 4) :: [])) s =
     (Ok (HttpError "Service not available" 503), s)).
Proof.
  assert (H : VInt64 0 <> AttemptsKey) by discriminate.
  split; [exact H|].
  exact (GetAttemptsFromContext_nearest_value [] 4 (VInt64 0) (VInt 9) H).
Defined.

Lemma HealthCheck_keeps_URLs_and_other_backends_witness :
  ~ In 0%nat (backends poolB) /\
  URL (fst (HealthCheck nat alternating_dial instant_tick 3 poolB heapABC
              0%nat) 0%nat) = URL (heapABC 0%nat) /\
  (~ In 0%nat (backends poolB) ->
   fst (HealthCheck nat alternating_dial instant_tick 3 poolB heapABC 0%nat)
     0%nat = heapABC 0%nat).
Proof.
  split.
  - cbn. intros [H|[]]. discriminate H.
  - exact (HealthCheck_keeps_URLs_and_other_backends nat alternating_dial
             instant_tick poolB 0%nat 3 heapABC 0%nat).
Defined.
